(** * go1.24_demo.go: the template range helper [seq], the template run of
      [DemoTextTemplate], and the call sequence of [main].

    The Go program is embedded shallowly.  Go's [int] is the 64-bit signed
    integer of the 64-bit gc targets, kept as a [Z] with the wrap-around of
    [+], [-] and [++] written out.  A loop that Go may run forever takes fuel,
    and [None] means the fuel ran out.

    The code is given twice.  [seq], [Execute] and [render] are the run in
    which the allocator serves every request that passes the runtime's size
    test: a slice is the list of its elements and the output buffer is a
    string.  [seq_mem], [Execute_mem] and [render_mem] take the allocator's
    answers as a parameter: a slice carries its capacity, [make], [append] and
    a write to the buffer ask the allocator, and a request it cannot serve
    kills the process. *)

From Stdlib Require Import ZArith List String Ascii Bool Lia.
From Stdlib Require Import DecimalString DecimalZ DecimalPos DecimalFacts.
From Stdlib Require Import Sorting.Sorted.
Import ListNotations.

Open Scope Z_scope.

(** ** Go's [int] on a 64-bit target *)

Module GoInt.

Definition MinInt : Z := - 2 ^ 63.
Definition MaxInt : Z := 2 ^ 63 - 1.

(** Values an [int] variable can hold. *)
Definition is_int (z : Z) : Prop := MinInt <= z <= MaxInt.

(** Two's-complement reduction of a mathematical result to an [int]. *)
Definition wrap (z : Z) : Z := (z + 2 ^ 63) mod 2 ^ 64 - 2 ^ 63.

Definition add (a b : Z) : Z := wrap (a + b).
Definition sub (a b : Z) : Z := wrap (a - b).

(** [i++] *)
Definition incr (i : Z) : Z := add i 1.

End GoInt.

(** ** The part of the Go runtime that [make] and a panicking call reach *)

Module Runtime.

(** Run-time panics the modelled code can raise. *)
Inductive runtimeError : Type :=
| makeslice_cap_out_of_range   (* "makeslice: cap out of range" *)
| makeslice_len_out_of_range   (* "makeslice: len out of range" *)
| growslice_len_out_of_range.  (* "growslice: len out of range" *)

(** A Go call either returns or panics. *)
Inductive result (A : Type) : Type :=
| Return (a : A)
| Panic (e : runtimeError).
Arguments Return {A} a.
Arguments Panic {A} e.

(** Largest allocation the 64-bit runtime accepts (48 heap address bits),
    and the size of one [int] in bytes. *)
Definition maxAlloc : Z := 2 ^ 48.
Definition int_size : Z := 8.

(** [uintptr(n)] of an [int]. *)
Definition uintptr (n : Z) : Z := n mod 2 ^ 64.

(** The size test of [make([]int, len, cap)]: the runtime multiplies the
    element size by [uintptr(cap)] and panics when that overflows, exceeds
    [maxAlloc], or when [len] is negative or larger than [cap]; the same test
    on [len] chooses between the two messages.  A request that passes goes to
    the allocator; here the allocator serves it ([makeslice_mem] below asks
    it). *)
Definition makeslice (len cap : Z) : result (list Z) :=
  let mem := int_size * uintptr cap in
  if (2 ^ 64 <=? mem) || (maxAlloc <? mem) || (len <? 0) || (cap <? len) then
    let mem' := int_size * uintptr len in
    if (2 ^ 64 <=? mem') || (maxAlloc <? mem') || (len <? 0)
    then Panic makeslice_len_out_of_range
    else Panic makeslice_cap_out_of_range
  else Return (repeat 0 (Z.to_nat len)).

(** Largest capacity of [make([]int, 0, cap)] that passes the size test. *)
Definition maxCap : Z := 2 ^ 45.

End Runtime.

Import Runtime.

(** ** The [seq] function of the template's FuncMap *)

(** State of the loop [for i := start; i <= end; i++ { s = append(s, i) }]:
    the counter and the elements of the slice.  [append] here has the room it
    needs ([append_mem] below grows the slice through the allocator). *)
Definition loop_state : Type := (Z * list Z)%type.

Definition loop_cond (end_ : Z) (st : loop_state) : bool := fst st <=? end_.

Definition loop_body (st : loop_state) : loop_state :=
  (GoInt.incr (fst st), snd st ++ [fst st]).

Fixpoint seq_loop (fuel : nat) (end_ : Z) (st : loop_state) : option (list Z) :=
  match fuel with
  | O => None
  | S fuel' =>
      if loop_cond end_ st then seq_loop fuel' end_ (loop_body st)
      else Some (snd st)
  end.

(** [func(start, end int) []int]. *)
Definition seq (fuel : nat) (start end_ : Z) : option (result (list Z)) :=
  match makeslice 0 (GoInt.add (GoInt.sub end_ start) 1) with
  | Panic e => Some (Panic e)
  | Return s => option_map Return (seq_loop fuel end_ (start, s))
  end.

(** ** Executing the template *)

(** Decimal text of an [int], as the template prints [{{$i}}]. *)
Definition itoa (z : Z) : string := NilZero.string_of_int (Z.to_int z).

(** The error [Execute] returns when a template function panics: the
    engine recovers the panic and reports it with the function's name. *)
Inductive ExecError : Type :=
| error_calling (name : string) (e : runtimeError).

(** The body [{{$i}}sep] of the range action, once per element, written to
    the buffer [wr]. *)
Fixpoint walkRange (sep : string) (s : list Z) (wr : string) : string :=
  match s with
  | [] => wr
  | i :: s' => walkRange sep s' (wr ++ itoa i ++ sep)
  end.

(** [tmpl.Execute(&wr, nil)] for the template
    [prefix{{range $i := seq start end}}{{$i}}sep{{end}}]: the text before the
    action is written first, then the pipeline is evaluated.  The buffer keeps
    what was written before an error. *)
Definition Execute (fuel : nat) (prefix : string) (start end_ : Z)
    (sep : string) (wr : string) : option (string * option ExecError) :=
  let wr := (wr ++ prefix)%string in
  match seq fuel start end_ with
  | None => None
  | Some (Panic e) => Some (wr, Some (error_calling "seq" e))
  | Some (Return s) => Some (walkRange sep s wr, None)
  end.

(** The renderer of the specification: the text of a fresh buffer after a
    successful [Execute], or the error. *)
Definition render (fuel : nat) (prefix : string) (start end_ : Z)
    (sep : string) : option (string + ExecError) :=
  match Execute fuel prefix start end_ sep "" with
  | None => None
  | Some (out, None) => Some (inl out)
  | Some (_, Some e) => Some (inr e)
  end.

(** ** The same code with the allocator's answers *)

(** A step that may kill the process: the runtime's "fatal error: out of
    memory", or a panic nobody recovers.  Nothing runs after [Died]. *)
Inductive fatal (A : Type) : Type :=
| Alive (a : A)
| Died.
Arguments Alive {A} a.
Arguments Died {A}.

(** What the allocator answers during one run: whether it serves a block
    of so many bytes; the capacity [growslice] picks for a new length and an
    old capacity (its growth rule, rounded to a size class); and whether the
    output buffer gets the memory to hold so many bytes. *)
Record Allocator : Type := {
  grants : Z -> bool;
  nextslicecap : Z -> Z -> Z;
  buffer_holds : Z -> bool
}.

(** [mallocgc(size)]: a request of size 0 is served without allocating. *)
Definition mallocgc (h : Allocator) (size : Z) : bool :=
  (size =? 0) || grants h size.

(** A slice of ints: its elements and its capacity. *)
Definition slice : Type := (list Z * Z)%type.

(** [make([]int, len, cap)]: the size test, then the allocator. *)
Definition makeslice_mem (h : Allocator) (len cap : Z) : fatal (result slice) :=
  match makeslice len cap with
  | Panic e => Alive (Panic e)
  | Return s =>
      if mallocgc h (int_size * uintptr cap) then Alive (Return (s, cap))
      else Died
  end.

(** [growslice]: the new capacity, a panic when it is beyond [maxAlloc],
    or death when the allocator does not serve it. *)
Definition growslice (h : Allocator) (newLen oldCap : Z) : fatal (result Z) :=
  let newcap := nextslicecap h newLen oldCap in
  let capmem := int_size * newcap in
  if (newLen <? 0) || (maxAlloc <? capmem)
  then Alive (Panic growslice_len_out_of_range)
  else if mallocgc h capmem then Alive (Return newcap) else Died.

(** [s = append(s, i)]: in place while the capacity lasts, through
    [growslice] when it does not. *)
Definition append_mem (h : Allocator) (s : slice) (i : Z) : fatal (result slice) :=
  let newLen := Z.of_nat (List.length (fst s)) + 1 in
  if snd s <? newLen then
    match growslice h newLen (snd s) with
    | Alive (Return newcap) => Alive (Return ((fst s ++ [i])%list, newcap))
    | Alive (Panic e) => Alive (Panic e)
    | Died => Died
    end
  else Alive (Return ((fst s ++ [i])%list, snd s)).

(** The loop of [seq]; one unit of fuel pays for one test of [i <= end]. *)
Fixpoint seq_loop_mem (h : Allocator) (fuel : nat) (end_ i : Z) (s : slice)
  : option (fatal (result (list Z))) :=
  match fuel with
  | O => None
  | S fuel' =>
      if i <=? end_ then
        match append_mem h s i with
        | Alive (Return s') => seq_loop_mem h fuel' end_ (GoInt.incr i) s'
        | Alive (Panic e) => Some (Alive (Panic e))
        | Died => Some Died
        end
      else Some (Alive (Return (fst s)))
  end.

(** [func(start, end int) []int]. *)
Definition seq_mem (h : Allocator) (fuel : nat) (start end_ : Z)
  : option (fatal (result (list Z))) :=
  match makeslice_mem h 0 (GoInt.add (GoInt.sub end_ start) 1) with
  | Died => Some Died
  | Alive (Panic e) => Some (Alive (Panic e))
  | Alive (Return s) => seq_loop_mem h fuel end_ start s
  end.

(** A write to the output buffer: nothing to do for an empty text;
    otherwise the buffer must get the memory for its new content, and a
    buffer that cannot grow kills the process. *)
Definition Write (h : Allocator) (wr text : string) : fatal string :=
  match text with
  | EmptyString => Alive wr
  | _ =>
      if buffer_holds h (Z.of_nat (String.length (wr ++ text)))
      then Alive (wr ++ text)%string
      else Died
  end.

(** The body [{{$i}}sep] of the range action: the numeral is one write, the
    text after it another. *)
Fixpoint walkRange_mem (h : Allocator) (sep : string) (s : list Z) (wr : string)
  : fatal string :=
  match s with
  | [] => Alive wr
  | i :: s' =>
      match Write h wr (itoa i) with
      | Died => Died
      | Alive wr1 =>
          match Write h wr1 sep with
          | Died => Died
          | Alive wr2 => walkRange_mem h sep s' wr2
          end
      end
  end.

(** [tmpl.Execute(&wr, nil)]: a panic of [seq] is recovered into the error,
    a death is not. *)
Definition Execute_mem (h : Allocator) (fuel : nat) (prefix : string)
    (start end_ : Z) (sep : string) (wr : string)
  : option (fatal (string * option ExecError)) :=
  match Write h wr prefix with
  | Died => Some Died
  | Alive wr1 =>
      match seq_mem h fuel start end_ with
      | None => None
      | Some Died => Some Died
      | Some (Alive (Panic e)) => Some (Alive (wr1, Some (error_calling "seq" e)))
      | Some (Alive (Return s)) =>
          match walkRange_mem h sep s wr1 with
          | Died => Some Died
          | Alive out => Some (Alive (out, None))
          end
      end
  end.

Definition render_mem (h : Allocator) (fuel : nat) (prefix : string)
    (start end_ : Z) (sep : string) : option (fatal (string + ExecError)) :=
  match Execute_mem h fuel prefix start end_ sep "" with
  | None => None
  | Some Died => Some Died
  | Some (Alive (out, None)) => Some (Alive (inl out))
  | Some (Alive (_, Some e)) => Some (Alive (inr e))
  end.

(** The buffer gets the memory for every content of up to [N] bytes. *)
Definition buffer_serves (h : Allocator) (N : Z) : Prop :=
  forall n : Z, 0 < n <= N -> buffer_holds h n = true.

(** An allocator with one page of 4096 bytes for a block and for the
    buffer, which doubles a slice that has to grow. *)
Definition one_page : Allocator :=
  {| grants := fun size => size <=? 4096;
     nextslicecap := fun newLen _ => 2 * newLen;
     buffer_holds := fun n => n <=? 4096 |}.

(** ** Ranges of integers *)

(** [a; a+1; ...], [n] elements. *)
Fixpoint zrange (a : Z) (n : nat) : list Z :=
  match n with
  | O => []
  | S n' => a :: zrange (a + 1) n'
  end.

(** The integers [a <= i <= b] in ascending order. *)
Definition interval (a b : Z) : list Z := zrange a (Z.to_nat (b - a + 1)).

(** ** Reading the rendered text back *)

(** Each token followed by the separator. *)
Fixpoint join_after (sep : string) (toks : list string) : string :=
  match toks with
  | [] => EmptyString
  | t :: ts => t ++ sep ++ join_after sep ts
  end.

Fixpoint no_space (s : string) : bool :=
  match s with
  | EmptyString => true
  | String c s' => negb (Ascii.eqb c " ") && no_space s'
  end.

(** The tokens of a text in which every token is closed by one space;
    [None] when text is left over after the last space. *)
Fixpoint split_tokens (s : string) : option (list string) :=
  match s with
  | EmptyString => Some []
  | String c s' =>
      match split_tokens s' with
      | None => None
      | Some ts =>
          if Ascii.eqb c " " then Some (EmptyString :: ts)
          else match ts with
               | t :: ts' => Some (String c t :: ts')
               | [] => None
               end
      end
  end.

(** Reading a decimal numeral. *)
Definition atoi (s : string) : option Z :=
  option_map Z.of_int (NilZero.int_of_string s).

(** ** The demo functions and [main] *)

Section Demos.

Local Open Scope string_scope.

(** What the operating system, the clock, the garbage collector and the
    library calls whose results the program inspects hand back on one run.
    A fallible call gives its value or the text of its error. *)
Record Env : Type := {
  finalizer_ran : bool;              (* the collector ran the finalizer in time *)
  pbkdf2_Key : string + string;      (* hex of the derived key, or err *)
  sha3_Sum : string;                 (* hex of the digest *)
  os_MkdirTemp : string + string;    (* directory name, or err *)
  os_WriteFile : option string;      (* err *)
  os_Open : option string;           (* err *)
  Readdir : list string + string;    (* entry names, or err *)
  netip_ParseAddr : string + string; (* text of the address, or err *)
  regexp_text : string;
  bigInt_text : string;
  rand_Int : Z;
  syncMap_key1_first : bool;         (* order in which Range visits the keys *)
  time_text : string;
  maphash_Sum64 : Z
}.

(** How a function call ends. *)
Inductive outcome : Type :=
| Returned
| Exit (code : Z)     (* os.Exit(code) *)
| Panicking.          (* a panic nobody recovers *)

(** Exit status of the process when [main] ends this way. *)
Definition exit_code (o : outcome) : Z :=
  match o with
  | Returned => 0
  | Exit code => code
  | Panicking => 2
  end.

(** Lines a function prints, and how it ends. *)
Definition run : Type := (list string * outcome)%type.

(** [fmt.Println] of a slice of ints: the elements between brackets. *)
Fixpoint join_sp (l : list string) : string :=
  match l with
  | [] => EmptyString
  | [t] => t
  | t :: ts => t ++ " " ++ join_sp ts
  end.

Definition demoGenericTypeAlias : run :=
  let numbers := [1; 2; 3; 4; 5] in
  (["Generic Type Alias (MySlice[int]): " ++ "[" ++ join_sp (map itoa numbers) ++ "]"],
   Returned).

(** The finalizer prints from the collector's goroutine; its line, when
    it comes in time, is put with the function that set it. *)
Definition DemoFinalizers (env : Env) : run :=
  let holder_Value := 42 in
  ((if finalizer_ran env
    then ["Finalizer called for Holder with value: " ++ itoa holder_Value]
    else []),
   Returned).

Definition DemoCryptoPackages (env : Env) : run :=
  match pbkdf2_Key env with
  | inr err => (["PBKDF2 error: " ++ err], Returned)
  | inl pbkdf2Key =>
      (["Derived key (PBKDF2): " ++ pbkdf2Key;
        "SHA3-256 digest: " ++ sha3_Sum env], Returned)
  end.

Definition DemoDirectoryLimitedFS (env : Env) : run :=
  match os_MkdirTemp env with
  | inr err => (["Error creating temp directory: " ++ err], Returned)
  | inl tempDir =>
      match os_WriteFile env with
      | Some err => (["Error writing file: " ++ err], Returned)
      | None =>
          match os_Open env with
          | Some err => (["Error opening directory: " ++ err], Returned)
          | None =>
              match Readdir env with
              | inr err => (["Error reading directory: " ++ err], Returned)
              | inl entries =>
                  ("Files in limited FS:" :: map (fun name => " - " ++ name) entries,
                   Returned)
              end
          end
      end
  end.

(** [bytes.Split] with a one-byte separator. *)
Fixpoint Split (sep : ascii) (s : string) : list string :=
  match s with
  | EmptyString => [EmptyString]
  | String c s' =>
      if Ascii.eqb c sep then EmptyString :: Split sep s'
      else match Split sep s' with
           | t :: ts => String c t :: ts
           | [] => [String c EmptyString]
           end
  end.

(** [strings.Fields] on text whose only white space is the space. *)
Fixpoint Fields (s : string) : list string :=
  match s with
  | EmptyString => []
  | String c s' =>
      if Ascii.eqb c " " then Fields s'
      else match s' with
           | EmptyString => [String c EmptyString]
           | String c' _ =>
               if Ascii.eqb c' " " then String c EmptyString :: Fields s'
               else match Fields s' with
                    | t :: ts => String c t :: ts
                    | [] => [String c EmptyString]
                    end
           end
  end.

Definition newline : ascii := "010"%char.

Definition DemoBytesAndStringsIterators : run :=
  let text := "line1" ++ String newline ("line2" ++ String newline
              ("line3" ++ String newline EmptyString)) in
  let sample := "  foo   bar baz  " in
  ("Iterating over lines (using bytes.Split):"
     :: filter (fun line => (0 <? Z.of_nat (String.length line))%Z) (Split newline text)
     ++ "Iterating over fields (using strings.Fields):"
     :: Fields sample,
   Returned)%list.

(** [demoStruct.AppendText]: [fmt.Sprintf("demoStruct(%d)", d.Value)]
    appended to [dst]. *)
Definition AppendText (d_Value : Z) (dst : string) : string :=
  dst ++ "demoStruct(" ++ itoa d_Value ++ ")".

Definition DemoEncodingAppend : run :=
  let ds_Value := 123 in
  let buf := AppendText ds_Value "" in
  (["Encoding append result: " ++ buf], Returned).

(** Both branches of the type assertion leave the text of the address in
    [buf]. *)
Definition DemoNetipEncoding (env : Env) : run :=
  match netip_ParseAddr env with
  | inr err => (["Error parsing IP: " ++ err], Returned)
  | inl buf => (["netip.Addr appended text: " ++ buf], Returned)
  end.

(** The constant pattern [a*b] compiles, so [regexp.MustCompile] returns. *)
Definition DemoRegexpEncoding (env : Env) : run :=
  (["Regexp appended text: " ++ regexp_text env], Returned).

Definition DemoRuntimeGOROOT : run :=
  (["Note: runtime.GOROOT is deprecated; use 'go env GOROOT' instead."], Returned).

Definition quote : string := String "034"%char EmptyString.

Definition runtimeError_text (e : runtimeError) : string :=
  match e with
  | makeslice_cap_out_of_range => "runtime error: makeslice: cap out of range"
  | makeslice_len_out_of_range => "runtime error: makeslice: len out of range"
  | growslice_len_out_of_range => "runtime error: growslice: len out of range"
  end.

(** Text of the error after the template position; [DemoTextTemplate]
    puts the position of its one action in front. *)
Definition ExecError_text (e : ExecError) : string :=
  match e with
  | error_calling name e' => "error calling " ++ name ++ ": " ++ runtimeError_text e'
  end.

(** The template text is the constant
    [Numbers: {{range $i := seq 1 5}}{{$i}} {{end}}], which parses; the run
    of the parsed template is [Execute] on a fresh buffer. *)
Definition DemoTextTemplate (fuel : nat) : option run :=
  match Execute fuel "Numbers: " 1 5 " " "" with
  | None => None
  | Some (_, Some err) =>
      Some (["Error executing template: "
               ++ "template: demo:1:23: executing " ++ quote ++ "demo" ++ quote
               ++ " at <seq 1 5>: " ++ ExecError_text err], Returned)
  | Some (tplOutput, None) =>
      Some (["Template output: " ++ tplOutput], Returned)
  end.

Definition DemoMathBigEncoding (env : Env) : run :=
  (["big.Int appended text: " ++ bigInt_text env], Returned).

Definition DemoMathRand (env : Env) : run :=
  (["Random number (rand.New): " ++ itoa (rand_Int env)], Returned).

Definition DemoSyncMap (env : Env) : run :=
  let entry (key : string) (value : Z) := "  key=" ++ key ++ ", value=" ++ itoa value in
  ("Iterating over sync.Map:"
     :: (if syncMap_key1_first env
         then [entry "key1" 100; entry "key2" 200]
         else [entry "key2" 200; entry "key1" 100]),
   Returned).

Definition DemoSlog : run :=
  (["slog.DiscardHandler demo: In production, a DiscardHandler would discard logs."],
   Returned).

Definition DemoTimeEncoding (env : Env) : run :=
  (["time.Time appended text: " ++ time_text env], Returned).

Definition DemoSynctest : run :=
  (["Experimental synctest demo: See tests built with GOEXPERIMENT=synctest for usage."],
   Returned).

Definition DemoGoTypesIterators : run :=
  (["go/types iterator demonstration: Use the Variables() method on tuples, etc."],
   Returned).

Definition DemoMaphashComparable (env : Env) : run :=
  let key := "myKey" in
  (["Hash for key " ++ quote ++ key ++ quote ++ ": " ++ itoa (maphash_Sum64 env)],
   Returned).

(** The functions [main] calls. *)
Inductive demo : Type :=
| f_demoGenericTypeAlias | f_DemoFinalizers | f_DemoCryptoPackages
| f_DemoDirectoryLimitedFS | f_DemoBytesAndStringsIterators
| f_DemoEncodingAppend | f_DemoNetipEncoding | f_DemoRegexpEncoding
| f_DemoRuntimeGOROOT | f_DemoTextTemplate | f_DemoMathBigEncoding
| f_DemoMathRand | f_DemoSyncMap | f_DemoSlog | f_DemoTimeEncoding
| f_DemoSynctest | f_DemoGoTypesIterators | f_DemoMaphashComparable.

Definition demo_eq_dec (f g : demo) : {f = g} + {f <> g}.
Proof. decide equality. Defined.

(** Every top-level function of the file but [main]; the method
    [demoStruct.AppendText] is not one. *)
Definition declared_demos : list demo :=
  [f_demoGenericTypeAlias; f_DemoFinalizers; f_DemoCryptoPackages;
   f_DemoDirectoryLimitedFS; f_DemoBytesAndStringsIterators;
   f_DemoEncodingAppend; f_DemoNetipEncoding; f_DemoRegexpEncoding;
   f_DemoRuntimeGOROOT; f_DemoTextTemplate; f_DemoMathBigEncoding;
   f_DemoMathRand; f_DemoSyncMap; f_DemoSlog; f_DemoTimeEncoding;
   f_DemoSynctest; f_DemoGoTypesIterators; f_DemoMaphashComparable].

(** The body a call runs. *)
Definition call (f : demo) (fuel : nat) (env : Env) : option run :=
  match f with
  | f_demoGenericTypeAlias => Some demoGenericTypeAlias
  | f_DemoFinalizers => Some (DemoFinalizers env)
  | f_DemoCryptoPackages => Some (DemoCryptoPackages env)
  | f_DemoDirectoryLimitedFS => Some (DemoDirectoryLimitedFS env)
  | f_DemoBytesAndStringsIterators => Some DemoBytesAndStringsIterators
  | f_DemoEncodingAppend => Some DemoEncodingAppend
  | f_DemoNetipEncoding => Some (DemoNetipEncoding env)
  | f_DemoRegexpEncoding => Some (DemoRegexpEncoding env)
  | f_DemoRuntimeGOROOT => Some DemoRuntimeGOROOT
  | f_DemoTextTemplate => DemoTextTemplate fuel
  | f_DemoMathBigEncoding => Some (DemoMathBigEncoding env)
  | f_DemoMathRand => Some (DemoMathRand env)
  | f_DemoSyncMap => Some (DemoSyncMap env)
  | f_DemoSlog => Some DemoSlog
  | f_DemoTimeEncoding => Some (DemoTimeEncoding env)
  | f_DemoSynctest => Some DemoSynctest
  | f_DemoGoTypesIterators => Some DemoGoTypesIterators
  | f_DemoMaphashComparable => Some (DemoMaphashComparable env)
  end.

(** A statement of [main]. *)
Inductive stmt : Type :=
| Println (line : string)
| Call (f : demo).

Definition main : list stmt :=
  [Println "=== Go 1.24 Demo ===";
   Call f_demoGenericTypeAlias;
   Println "CGO Improvements Demo: Not implemented";
   Call f_DemoFinalizers;
   Call f_DemoCryptoPackages;
   Call f_DemoDirectoryLimitedFS;
   Call f_DemoBytesAndStringsIterators;
   Call f_DemoEncodingAppend;
   Call f_DemoNetipEncoding;
   Call f_DemoRegexpEncoding;
   Call f_DemoRuntimeGOROOT;
   Call f_DemoTextTemplate;
   Call f_DemoMathBigEncoding;
   Call f_DemoMathRand;
   Call f_DemoSyncMap;
   Call f_DemoSlog;
   Println "Text Template Range Demo: Not implemented";
   Call f_DemoTimeEncoding;
   Call f_DemoSynctest;
   Call f_DemoGoTypesIterators;
   Call f_DemoMaphashComparable;
   Println "=== Go 1.24 Demo End ==="].

(** What a run of the program does, in order. *)
Inductive event : Type :=
| Out (line : string)
| Invoke (f : demo).

(** Running statements in sequence: a call that does not return ends the
    run there. *)
Fixpoint exec (fuel : nat) (env : Env) (prog : list stmt)
  : option (list event * outcome) :=
  match prog with
  | [] => Some ([], Returned)
  | Println line :: rest =>
      match exec fuel env rest with
      | None => None
      | Some (evs, o) => Some (Out line :: evs, o)
      end
  | Call f :: rest =>
      match call f fuel env with
      | None => None
      | Some (lines, Returned) =>
          match exec fuel env rest with
          | None => None
          | Some (evs, o) => Some ((Invoke f :: map Out lines) ++ evs, o)%list
          end
      | Some (lines, o) => Some (Invoke f :: map Out lines, o)
      end
  end.

(** The functions a run invoked, in order. *)
Fixpoint invoked (evs : list event) : list demo :=
  match evs with
  | [] => []
  | Invoke f :: evs' => f :: invoked evs'
  | Out _ :: evs' => invoked evs'
  end.

(** The calls a statement list makes when each returns. *)
Fixpoint calls (prog : list stmt) : list demo :=
  match prog with
  | [] => []
  | Call f :: rest => f :: calls rest
  | Println _ :: rest => calls rest
  end.

(** The lines a run printed, in order. *)
Fixpoint output (evs : list event) : list string :=
  match evs with
  | [] => []
  | Out line :: evs' => line :: output evs'
  | Invoke _ :: evs' => output evs'
  end.

(** The lines one statement prints when its call returns. *)
Definition printed (fuel : nat) (env : Env) (st : stmt) : list string :=
  match st with
  | Println line => [line]
  | Call f =>
      match call f fuel env with
      | Some (lines, _) => lines
      | None => []
      end
  end.

End Demos.

(** * Proofs *)

(** ** The model on the scenarios of the specification *)

Example seq_1_5 : seq 6 1 5 = Some (Return [1; 2; 3; 4; 5]).
Proof. reflexivity. Qed.

Example render_0_0 :
  render 2 "Numbers: " 0 0 " " = Some (inl "Numbers: 0 "%string).
Proof. reflexivity. Qed.

(** The empty range start = end + 1 has capacity 0. *)
Example render_2_1 :
  render 1 "Numbers: " 2 1 " " = Some (inl "Numbers: "%string).
Proof. reflexivity. Qed.

(** A reversed range so wide that the capacity wraps around to 2. *)
Example seq_MaxInt_MinInt :
  seq 1 GoInt.MaxInt GoInt.MinInt = Some (Return []).
Proof. reflexivity. Qed.

Example split_tokens_1_2 :
  split_tokens "1 2 " = Some ["1"%string; "2"%string] /\
  split_tokens "1 2" = None.
Proof. split; reflexivity. Qed.

(** ** Integer lemmas *)

Ltac int_consts :=
  unfold GoInt.is_int, GoInt.MinInt, GoInt.MaxInt, maxCap, maxAlloc, int_size in *;
  change (2 ^ 64) with 18446744073709551616 in *;
  change (2 ^ 63) with 9223372036854775808 in *;
  change (2 ^ 48) with 281474976710656 in *;
  change (2 ^ 45) with 35184372088832 in *.

Lemma wrap_is_int (z : Z) : GoInt.is_int (GoInt.wrap z).
Proof.
  unfold GoInt.wrap. int_consts.
  pose proof (Z.mod_pos_bound (z + 9223372036854775808) 18446744073709551616).
  lia.
Qed.

Lemma wrap_id (z : Z) : GoInt.is_int z -> GoInt.wrap z = z.
Proof.
  unfold GoInt.wrap. int_consts. intros H.
  rewrite Z.mod_small; lia.
Qed.

Lemma wrap_above (z : Z) :
  GoInt.MaxInt < z <= GoInt.MaxInt + 2 ^ 64 -> GoInt.wrap z = z - 2 ^ 64.
Proof.
  unfold GoInt.wrap. int_consts. intros H.
  replace (z + 9223372036854775808)
    with (z - 9223372036854775808 + 1 * 18446744073709551616) by lia.
  rewrite Z.mod_add by lia. rewrite Z.mod_small; lia.
Qed.

Lemma wrap_below (z : Z) :
  GoInt.MinInt - 2 ^ 64 <= z < GoInt.MinInt -> GoInt.wrap z = z + 2 ^ 64.
Proof.
  unfold GoInt.wrap. int_consts. intros H.
  replace (z + 9223372036854775808)
    with (z + 27670116110564327424 + (-1) * 18446744073709551616) by lia.
  rewrite Z.mod_add by lia. rewrite Z.mod_small; lia.
Qed.

Lemma incr_small (i : Z) :
  GoInt.MinInt <= i < GoInt.MaxInt -> GoInt.incr i = i + 1.
Proof.
  intros H. unfold GoInt.incr, GoInt.add. apply wrap_id. int_consts. lia.
Qed.

Lemma incr_MaxInt : GoInt.incr GoInt.MaxInt = GoInt.MinInt.
Proof. reflexivity. Qed.

Lemma incr_is_int (i : Z) : GoInt.is_int (GoInt.incr i).
Proof. apply wrap_is_int. Qed.

(** ** [make([]int, 0, cap)] *)

Lemma makeslice_0_ok (cap : Z) :
  0 <= cap <= maxCap -> makeslice 0 cap = Return [].
Proof.
  intros H. unfold makeslice, uintptr. int_consts.
  rewrite (Z.mod_small cap) by lia.
  replace (18446744073709551616 <=? 8 * cap) with false
    by (symmetry; apply Z.leb_gt; lia).
  replace (281474976710656 <? 8 * cap) with false
    by (symmetry; apply Z.ltb_ge; lia).
  replace (cap <? 0) with false by (symmetry; apply Z.ltb_ge; lia).
  reflexivity.
Qed.

Lemma makeslice_0_neg (cap : Z) :
  GoInt.MinInt <= cap < 0 -> makeslice 0 cap = Panic makeslice_cap_out_of_range.
Proof.
  intros H. unfold makeslice.
  replace (cap <? 0) with true by (symmetry; apply Z.ltb_lt; lia).
  rewrite !orb_true_r. reflexivity.
Qed.

Lemma makeslice_0_big (cap : Z) :
  maxCap < cap <= GoInt.MaxInt ->
  makeslice 0 cap = Panic makeslice_cap_out_of_range.
Proof.
  intros H. unfold makeslice, uintptr. int_consts.
  rewrite (Z.mod_small cap) by lia.
  replace (281474976710656 <? 8 * cap) with true
    by (symmetry; apply Z.ltb_lt; lia).
  rewrite orb_true_r. reflexivity.
Qed.

(** For an [int] capacity, [make([]int, 0, cap)] returns exactly when
    [0 <= cap <= maxCap]. *)
Lemma makeslice_0_spec (cap : Z) :
  GoInt.is_int cap ->
  makeslice 0 cap =
    if (0 <=? cap) && (cap <=? maxCap) then Return []
    else Panic makeslice_cap_out_of_range.
Proof.
  intros H.
  destruct (Z.leb_spec 0 cap); destruct (Z.leb_spec cap maxCap); simpl.
  - apply makeslice_0_ok; lia.
  - apply makeslice_0_big. int_consts. lia.
  - apply makeslice_0_neg. int_consts. lia.
  - apply makeslice_0_neg. int_consts. lia.
Qed.

(** ** The loop of [seq] *)

Lemma zrange_length (a : Z) (n : nat) : List.length (zrange a n) = n.
Proof. revert a; induction n; simpl; intros; [reflexivity | now rewrite IHn]. Qed.

Lemma zrange_nth (n : nat) : forall (a : Z) (k : nat),
  (k < n)%nat -> nth k (zrange a n) 0 = a + Z.of_nat k.
Proof.
  induction n as [|n IH]; intros a k Hk; [lia|].
  destruct k as [|k]; simpl.
  - lia.
  - rewrite IH by lia. lia.
Qed.

Lemma zrange_In (n : nat) : forall (a x : Z),
  In x (zrange a n) <-> a <= x < a + Z.of_nat n.
Proof.
  induction n as [|n IH]; intros a x; simpl.
  - lia.
  - rewrite IH. lia.
Qed.

Lemma zrange_sorted (n : nat) : forall a : Z, StronglySorted Z.lt (zrange a n).
Proof.
  induction n as [|n IH]; intros a; simpl; constructor.
  - apply IH.
  - apply Forall_forall. intros x Hx. apply zrange_In in Hx. lia.
Qed.

Lemma interval_length (a b : Z) :
  Z.of_nat (List.length (interval a b)) = Z.max 0 (b - a + 1).
Proof. unfold interval. rewrite zrange_length. lia. Qed.

(** The state after [k] executions of the body, while the counter stays
    below [MaxInt]. *)
Lemma iter_loop_body (k : nat) : forall (i : Z) (s : list Z),
  GoInt.MinInt <= i -> i + Z.of_nat k <= GoInt.MaxInt ->
  Nat.iter k loop_body (i, s) = (i + Z.of_nat k, s ++ zrange i k).
Proof.
  induction k as [|k IH]; intros i s Hlo Hhi.
  - simpl. now rewrite Z.add_0_r, List.app_nil_r.
  - rewrite Nat.iter_succ_r. unfold loop_body at 2. simpl fst; simpl snd.
    rewrite incr_small by lia.
    rewrite IH by lia. rewrite <- List.app_assoc. simpl. f_equal. lia.
Qed.

(** With enough fuel the loop leaves with the elements [i .. end]. *)
Lemma seq_loop_run (n : nat) : forall (fuel : nat) (i end_ : Z) (s : list Z),
  GoInt.MinInt <= i -> end_ < GoInt.MaxInt ->
  i + Z.of_nat n = end_ + 1 -> (n < fuel)%nat ->
  seq_loop fuel end_ (i, s) = Some (s ++ zrange i n).
Proof.
  induction n as [|n IH]; intros fuel i end_ s Hlo Hhi Hn Hf;
    (destruct fuel as [|fuel]; [lia|]); simpl; unfold loop_cond; simpl fst.
  - replace (i <=? end_) with false by (symmetry; apply Z.leb_gt; lia).
    simpl. now rewrite List.app_nil_r.
  - replace (i <=? end_) with true by (symmetry; apply Z.leb_le; lia).
    unfold loop_body. simpl fst; simpl snd.
    rewrite incr_small by lia.
    rewrite (IH fuel (i + 1) end_ (s ++ [i])) by lia.
    now rewrite <- List.app_assoc.
Qed.

(** A reversed range leaves the loop at once. *)
Lemma seq_loop_empty (fuel : nat) (i end_ : Z) (s : list Z) :
  end_ < i -> seq_loop (S fuel) end_ (i, s) = Some s.
Proof.
  intros H. simpl. unfold loop_cond. simpl fst.
  replace (i <=? end_) with false by (symmetry; apply Z.leb_gt; lia).
  reflexivity.
Qed.

(** With too little fuel the loop is still running. *)
Lemma seq_loop_short (fuel : nat) : forall (i end_ : Z) (s : list Z),
  GoInt.MinInt <= i -> i + Z.of_nat fuel <= end_ + 1 -> end_ <= GoInt.MaxInt ->
  seq_loop fuel end_ (i, s) = None.
Proof.
  induction fuel as [|fuel IH]; intros i end_ s Hlo Hn Hhi; [reflexivity|].
  simpl. unfold loop_cond. simpl fst.
  replace (i <=? end_) with true by (symmetry; apply Z.leb_le; lia).
  unfold loop_body. simpl fst; simpl snd.
  destruct fuel as [|fuel']; [reflexivity|].
  rewrite incr_small by lia. apply IH; lia.
Qed.

(** When [end] is [MaxInt] the condition [i <= end] holds for every [int]. *)
Lemma seq_loop_MaxInt (fuel : nat) : forall (i : Z) (s : list Z),
  GoInt.is_int i -> seq_loop fuel GoInt.MaxInt (i, s) = None.
Proof.
  induction fuel as [|fuel IH]; intros i s Hi; [reflexivity|].
  simpl. unfold loop_cond. simpl fst.
  replace (i <=? GoInt.MaxInt) with true
    by (symmetry; apply Z.leb_le; unfold GoInt.is_int in Hi; lia).
  apply IH. apply incr_is_int.
Qed.

(** ** [seq] as a whole *)

Lemma wrap_wrap_add (x y : Z) : GoInt.wrap (GoInt.wrap x + y) = GoInt.wrap (x + y).
Proof.
  unfold GoInt.wrap.
  replace ((x + 2 ^ 63) mod 2 ^ 64 - 2 ^ 63 + y + 2 ^ 63)
    with ((x + 2 ^ 63) mod 2 ^ 64 + y) by lia.
  rewrite Z.add_mod_idemp_l by (int_consts; lia).
  f_equal. f_equal. lia.
Qed.

(** The capacity [end-start+1] as the machine computes it. *)
Lemma seq_cap (start end_ : Z) :
  GoInt.add (GoInt.sub end_ start) 1 = GoInt.wrap (end_ - start + 1).
Proof. unfold GoInt.add, GoInt.sub. apply wrap_wrap_add. Qed.

Lemma seq_returns (fuel : nat) (start end_ : Z) :
  GoInt.is_int start -> GoInt.is_int end_ ->
  start <= end_ + 1 -> end_ - start + 1 <= maxCap -> end_ < GoInt.MaxInt ->
  (Z.to_nat (end_ - start + 1) < fuel)%nat ->
  seq fuel start end_ = Some (Return (interval start end_)).
Proof.
  intros Hs He Hle Hcap Hmax Hfuel. unfold seq.
  rewrite seq_cap, wrap_id by (int_consts; lia).
  rewrite makeslice_0_ok by lia.
  rewrite (seq_loop_run (Z.to_nat (end_ - start + 1)))
    by (int_consts; lia).
  reflexivity.
Qed.

Lemma seq_panics_neg (fuel : nat) (start end_ : Z) :
  GoInt.MinInt <= end_ - start + 1 < 0 ->
  seq fuel start end_ = Some (Panic makeslice_cap_out_of_range).
Proof.
  intros H. unfold seq.
  rewrite seq_cap, wrap_id by (int_consts; lia).
  now rewrite makeslice_0_neg.
Qed.

Lemma seq_panics_big (fuel : nat) (start end_ : Z) :
  maxCap < end_ - start + 1 <= GoInt.MaxInt ->
  seq fuel start end_ = Some (Panic makeslice_cap_out_of_range).
Proof.
  intros H. unfold seq.
  rewrite seq_cap, wrap_id by (int_consts; lia).
  now rewrite makeslice_0_big.
Qed.

Lemma seq_panics_wrap (fuel : nat) (start end_ : Z) :
  GoInt.MaxInt < end_ - start + 1 < 2 ^ 64 ->
  seq fuel start end_ = Some (Panic makeslice_cap_out_of_range).
Proof.
  intros H. unfold seq.
  rewrite seq_cap, wrap_above by (int_consts; lia).
  rewrite makeslice_0_neg; [reflexivity | int_consts; lia].
Qed.

(** With [end = MaxInt], [seq] never returns a slice: either [make] panics
    or the loop runs on. *)
Lemma seq_MaxInt_no_return (fuel : nat) (start : Z) (l : list Z) :
  GoInt.is_int start -> seq fuel start GoInt.MaxInt <> Some (Return l).
Proof.
  intros Hs. unfold seq.
  destruct (makeslice 0 _) as [s|e]; [|discriminate].
  now rewrite seq_loop_MaxInt.
Qed.

(** For [start <= end + 1], [seq] returns a slice exactly when the range
    fits the allocation bound and [end] is below [MaxInt]. *)
Lemma seq_returns_iff (start end_ : Z) :
  GoInt.is_int start -> GoInt.is_int end_ -> start <= end_ + 1 ->
  (exists fuel l, seq fuel start end_ = Some (Return l)) <->
  (end_ - start + 1 <= maxCap /\ end_ < GoInt.MaxInt).
Proof.
  intros Hs He Hle. split.
  - intros (fuel & l & H).
    assert (Hm : end_ < GoInt.MaxInt).
    { destruct (Z.eq_dec end_ GoInt.MaxInt) as [->|];
        [now apply seq_MaxInt_no_return in H | int_consts; lia]. }
    split; [|exact Hm].
    destruct (Z_le_gt_dec (end_ - start + 1) maxCap) as [|Hbig]; [assumption|].
    destruct (Z_le_gt_dec (end_ - start + 1) GoInt.MaxInt).
    + rewrite seq_panics_big in H by lia. discriminate.
    + rewrite seq_panics_wrap in H by (int_consts; lia). discriminate.
  - intros [Hcap Hm]. exists (S (Z.to_nat (end_ - start + 1))), (interval start end_).
    apply seq_returns; auto.
Qed.

(** ** The rendered text *)

Lemma append_assoc (s1 s2 s3 : string) :
  ((s1 ++ s2) ++ s3 = s1 ++ (s2 ++ s3))%string.
Proof. induction s1 as [|c s1 IH]; simpl; [reflexivity | now rewrite IH]. Qed.

Lemma append_nil_r (s : string) : (s ++ "" = s)%string.
Proof. induction s as [|c s IH]; simpl; [reflexivity | now rewrite IH]. Qed.

Lemma walkRange_spec (sep : string) (s : list Z) : forall wr : string,
  walkRange sep s wr = (wr ++ join_after sep (map itoa s))%string.
Proof.
  induction s as [|i s IH]; intros wr; simpl.
  - now rewrite append_nil_r.
  - rewrite IH. now rewrite !append_assoc.
Qed.

Lemma split_tokens_cons (t rest : string) :
  no_space t = true ->
  split_tokens (t ++ String " " rest) = option_map (cons t) (split_tokens rest).
Proof.
  induction t as [|c t IH]; intros Ht; simpl in *.
  - now destruct (split_tokens rest).
  - apply andb_prop in Ht as [Hc Ht]. rewrite (IH Ht).
    destruct (split_tokens rest) as [ts|]; simpl; [|reflexivity].
    apply negb_true_iff in Hc. now rewrite Hc.
Qed.

Lemma split_tokens_join (toks : list string) :
  Forall (fun t => no_space t = true) toks ->
  split_tokens (join_after " " toks) = Some toks.
Proof.
  induction 1 as [|t ts Ht _ IH]; simpl; [reflexivity|].
  now rewrite split_tokens_cons, IH.
Qed.

Lemma no_space_uint (d : Decimal.uint) :
  no_space (NilEmpty.string_of_uint d) = true.
Proof. induction d; simpl; auto. Qed.

Lemma itoa_no_space (z : Z) : no_space (itoa z) = true.
Proof.
  unfold itoa. destruct z as [|p|p]; simpl; [reflexivity| |];
    destruct (Pos.to_uint p); simpl; auto using no_space_uint.
Qed.

Lemma atoi_itoa (z : Z) : atoi (itoa z) = Some z.
Proof.
  unfold atoi, itoa.
  rewrite NilZero.isi.
  - simpl. now rewrite DecimalZ.of_to.
  - destruct z; simpl; try discriminate.
    intros [= H]. now apply DecimalPos.Unsigned.to_uint_nonnil in H.
  - destruct z; simpl; try discriminate.
    intros [= H]. now apply DecimalPos.Unsigned.to_uint_nonnil in H.
Qed.

Lemma map_atoi_itoa (l : list Z) : map atoi (map itoa l) = map Some l.
Proof.
  induction l as [|z l IH]; simpl; [reflexivity|].
  now rewrite atoi_itoa, IH.
Qed.

Lemma Forall_itoa_no_space (l : list Z) :
  Forall (fun t => no_space t = true) (map itoa l).
Proof.
  induction l; simpl; constructor; auto using itoa_no_space.
Qed.


(** ** [Execute] and [render] in terms of [seq] *)

Lemma Execute_Return (fuel : nat) (prefix sep wr : string) (start end_ : Z) (s : list Z) :
  seq fuel start end_ = Some (Return s) ->
  Execute fuel prefix start end_ sep wr =
    Some ((wr ++ prefix ++ join_after sep (map itoa s))%string, None).
Proof.
  intros H. unfold Execute. rewrite H, walkRange_spec.
  now rewrite append_assoc.
Qed.

Lemma Execute_Panic (fuel : nat) (prefix sep wr : string) (start end_ : Z)
    (e : runtimeError) :
  seq fuel start end_ = Some (Panic e) ->
  Execute fuel prefix start end_ sep wr =
    Some ((wr ++ prefix)%string, Some (error_calling "seq" e)).
Proof. intros H. unfold Execute. now rewrite H. Qed.

Lemma render_Return (fuel : nat) (prefix sep : string) (start end_ : Z) (s : list Z) :
  seq fuel start end_ = Some (Return s) ->
  render fuel prefix start end_ sep =
    Some (inl (prefix ++ join_after sep (map itoa s))%string).
Proof. intros H. unfold render. now rewrite (Execute_Return _ _ _ _ _ _ s). Qed.

Lemma render_Panic (fuel : nat) (prefix sep : string) (start end_ : Z)
    (e : runtimeError) :
  seq fuel start end_ = Some (Panic e) ->
  render fuel prefix start end_ sep = Some (inr (error_calling "seq" e)).
Proof. intros H. unfold render. now rewrite (Execute_Panic _ _ _ _ _ _ e). Qed.

(** [render] gives a text only when [seq] returned a slice. *)
Lemma render_inl_seq (fuel : nat) (prefix sep out : string) (start end_ : Z) :
  render fuel prefix start end_ sep = Some (inl out) ->
  exists s, seq fuel start end_ = Some (Return s).
Proof.
  unfold render, Execute.
  destruct (seq fuel start end_) as [[s|e]|]; try discriminate.
  intros _. now exists s.
Qed.

(** [render] ends only when [seq] ended. *)
Lemma render_Some_seq (fuel : nat) (prefix sep : string) (start end_ : Z)
    (r : string + ExecError) :
  render fuel prefix start end_ sep = Some r ->
  exists r', seq fuel start end_ = Some r'.
Proof.
  unfold render, Execute.
  destruct (seq fuel start end_) as [r'|]; [|discriminate].
  intros _. now exists r'.
Qed.

(** A reversed range whose capacity does not wrap around panics in [make]. *)
Lemma reversed_range_panics (fuel : nat) (start end_ : Z) :
  end_ + 1 < start -> GoInt.MinInt <= end_ - start + 1 ->
  seq fuel start end_ = Some (Panic makeslice_cap_out_of_range).
Proof. intros H1 H2. apply seq_panics_neg. lia. Qed.

(** ** The claims on [seq] and [render] *)

(** C1 (the code at the reversed range 5, 1): [seq 5 1] computes the
    capacity -3, [make] panics with "makeslice: cap out of range", and the
    template run ends with the error of calling seq instead of returning the
    text "Numbers: "; the prefix already written stays in the buffer. *)
Theorem seq_5_1_panics (fuel : nat) :
  GoInt.add (GoInt.sub 1 5) 1 = -3 /\
  seq fuel 5 1 = Some (Panic makeslice_cap_out_of_range) /\
  Execute fuel "Numbers: " 5 1 " " "" =
    Some ("Numbers: "%string, Some (error_calling "seq" makeslice_cap_out_of_range)) /\
  render fuel "Numbers: " 5 1 " " =
    Some (inr (error_calling "seq" makeslice_cap_out_of_range)).
Proof.
  assert (H : seq fuel 5 1 = Some (Panic makeslice_cap_out_of_range))
    by (apply reversed_range_panics; int_consts; lia).
  split; [reflexivity|]. split; [exact H|]. split.
  - now rewrite (Execute_Panic _ _ _ _ _ _ _ H).
  - now apply render_Panic.
Qed.

(** C2, as stated, fails: for 0 <= MaxInt the capacity MaxInt - 0 + 1 wraps
    around to MinInt, [make] panics, and no amount of fuel makes [render]
    give a text. *)
Lemma render_0_MaxInt_no_text :
  0 <= GoInt.MaxInt /\
  GoInt.add (GoInt.sub GoInt.MaxInt 0) 1 = GoInt.MinInt /\
  ~ exists fuel out, render fuel "Numbers: " 0 GoInt.MaxInt " " = Some (inl out).
Proof.
  split; [int_consts; lia|]. split; [reflexivity|].
  intros (fuel & out & H).
  rewrite (render_Panic _ _ _ _ _ makeslice_cap_out_of_range) in H; [discriminate|].
  apply seq_panics_wrap. int_consts. lia.
Qed.

(** C3, as stated, fails: with end = MaxInt the counter wraps around to
    MinInt after the last element, [i <= end] stays true, and the run of
    [render] on MaxInt - 4, MaxInt never ends, whatever the fuel. *)
Lemma render_to_MaxInt_never_ends :
  GoInt.is_int (GoInt.MaxInt - 4) /\ GoInt.is_int GoInt.MaxInt /\
  ~ exists fuel r,
      render fuel "Numbers: " (GoInt.MaxInt - 4) GoInt.MaxInt " " = Some r.
Proof.
  split; [int_consts; lia|]. split; [int_consts; lia|].
  intros (fuel & r & H).
  apply render_Some_seq in H as [r' H].
  unfold seq in H.
  rewrite seq_cap, wrap_id, makeslice_0_ok in H by (int_consts; lia).
  rewrite seq_loop_MaxInt in H by (int_consts; lia).
  discriminate.
Qed.

(** C4: the template of [DemoTextTemplate], with the bounds 1 and 5, renders
    to "Numbers: 1 2 3 4 5 " (trailing space included), and that is the text
    [DemoTextTemplate] prints after "Template output:". *)
Theorem render_1_5 (n : nat) :
  render (6 + n) "Numbers: " 1 5 " " = Some (inl "Numbers: 1 2 3 4 5 "%string) /\
  DemoTextTemplate (6 + n) =
    Some (["Template output: Numbers: 1 2 3 4 5 "%string], Returned).
Proof. split; reflexivity. Qed.

(** C5: negative and mixed-sign bounds: [seq (-2) 2] is -2, -1, 0, 1, 2 and
    [render "Numbers: " (-2) 2 " "] is "Numbers: -2 -1 0 1 2 ". *)
Theorem render_neg2_2 (n : nat) :
  seq (6 + n) (-2) 2 = Some (Return [-2; -1; 0; 1; 2]) /\
  render (6 + n) "Numbers: " (-2) 2 " " =
    Some (inl "Numbers: -2 -1 0 1 2 "%string).
Proof. split; reflexivity. Qed.

(** C9, as stated, fails: MinInt <= 0 + 1, but the capacity 0 - MinInt + 1
    wraps around to a negative number and [make] panics; 0 <= 2^45 + 1, but
    the capacity 2^45 + 1 is more than [make] accepts; and
    MaxInt <= MaxInt + 1, but [seq MaxInt MaxInt] never returns. *)
Lemma seq_capacity_failures :
  (GoInt.MinInt <= 0 + 1 /\
   GoInt.add (GoInt.sub 0 GoInt.MinInt) 1 < 0 /\
   forall fuel, seq fuel GoInt.MinInt 0 = Some (Panic makeslice_cap_out_of_range)) /\
  (0 <= 2 ^ 45 + 1 /\
   forall fuel, seq fuel 0 (2 ^ 45) = Some (Panic makeslice_cap_out_of_range)) /\
  (GoInt.MaxInt <= GoInt.MaxInt + 1 /\
   forall fuel, seq fuel GoInt.MaxInt GoInt.MaxInt = None).
Proof.
  split; [|split].
  - split; [int_consts; lia|]. split; [reflexivity|].
    intros fuel. apply seq_panics_wrap. int_consts. lia.
  - split; [lia|]. intros fuel. apply seq_panics_big. int_consts. lia.
  - split; [lia|]. intros fuel. unfold seq.
    rewrite seq_cap, wrap_id, makeslice_0_ok by (int_consts; lia).
    rewrite seq_loop_MaxInt by (int_consts; lia). reflexivity.
Qed.

(** ** [main] *)

Lemma DemoTextTemplate_runs (n : nat) :
  DemoTextTemplate (6 + n) =
    Some (["Template output: Numbers: 1 2 3 4 5 "%string], Returned).
Proof. reflexivity. Qed.

(** Every demo returns to [main], whatever the environment hands back. *)
Lemma call_returns (f : demo) (env : Env) (n : nat) :
  exists lines, call f (6 + n) env = Some (lines, Returned).
Proof.
  destruct f; cbn [call]; try rewrite DemoTextTemplate_runs;
    try (eexists; reflexivity).
  - unfold DemoCryptoPackages. destruct (pbkdf2_Key env); eexists; reflexivity.
  - unfold DemoDirectoryLimitedFS.
    destruct (os_MkdirTemp env); [|eexists; reflexivity].
    destruct (os_WriteFile env); [eexists; reflexivity|].
    destruct (os_Open env); [eexists; reflexivity|].
    destruct (Readdir env); eexists; reflexivity.
  - unfold DemoNetipEncoding. destruct (netip_ParseAddr env); eexists; reflexivity.
Qed.

Lemma invoked_app_Out (lines : list string) (evs : list event) :
  invoked (map Out lines ++ evs) = invoked evs.
Proof. induction lines as [|l lines IH]; simpl; auto. Qed.

(** When every call returns, the statements run to the end and the calls
    made are those written, in order. *)
Lemma exec_returns (fuel : nat) (env : Env) (prog : list stmt) :
  (forall f, exists lines, call f fuel env = Some (lines, Returned)) ->
  exists evs, exec fuel env prog = Some (evs, Returned) /\
              invoked evs = calls prog.
Proof.
  intros Hcall. induction prog as [|st prog (evs & Hex & Hinv)]; simpl.
  - now exists [].
  - destruct st as [line|f].
    + rewrite Hex. exists (Out line :: evs). now split.
    + destruct (Hcall f) as [lines ->]. rewrite Hex.
      eexists. split; [reflexivity|].
      simpl. now rewrite invoked_app_Out, Hinv.
Qed.

(** C7: on every run, [main] invokes the eighteen demo functions of the
    file in the order written below, each exactly once, and none is left
    out. *)
Theorem main_invokes_each_demo_once (env : Env) (n : nat) :
  exists evs,
    exec (6 + n) env main = Some (evs, Returned) /\
    invoked evs =
      [f_demoGenericTypeAlias; f_DemoFinalizers; f_DemoCryptoPackages;
       f_DemoDirectoryLimitedFS; f_DemoBytesAndStringsIterators;
       f_DemoEncodingAppend; f_DemoNetipEncoding; f_DemoRegexpEncoding;
       f_DemoRuntimeGOROOT; f_DemoTextTemplate; f_DemoMathBigEncoding;
       f_DemoMathRand; f_DemoSyncMap; f_DemoSlog; f_DemoTimeEncoding;
       f_DemoSynctest; f_DemoGoTypesIterators; f_DemoMaphashComparable] /\
    forall f : demo, count_occ demo_eq_dec (invoked evs) f = 1%nat.
Proof.
  destruct (exec_returns (6 + n) env main (fun f => call_returns f env n))
    as (evs & Hex & Hinv).
  exists evs. split; [exact Hex|]. rewrite Hinv.
  split; [reflexivity|]. intros f. destruct f; reflexivity.
Qed.

(** C8: on every run, whatever the library calls hand back, each demo
    prints and returns, [main] runs to its end, and the exit code of the
    process is 0. *)
Theorem main_exit_code_0 (env : Env) (n : nat) :
  (forall f : demo, exists lines, call f (6 + n) env = Some (lines, Returned)) /\
  exists evs o,
    exec (6 + n) env main = Some (evs, o) /\ o = Returned /\ exit_code o = 0.
Proof.
  split; [intros f; apply call_returns|].
  destruct (exec_returns (6 + n) env main (fun f => call_returns f env n))
    as (evs & Hex & _).
  exists evs, Returned. auto.
Qed.

(** * Further properties of the code *)

(** ** [seq] on every pair of ints *)

Lemma is_int_diff (start end_ : Z) :
  GoInt.is_int start -> GoInt.is_int end_ ->
  2 - 2 ^ 64 <= end_ - start + 1 <= 2 ^ 64.
Proof. int_consts. lia. Qed.

(** A reversed range so wide that the capacity wraps around to a value
    [make] accepts: the loop is reached and leaves at once. *)
Lemma seq_wrapped_reversed (fuel : nat) (start end_ : Z) :
  GoInt.is_int start -> GoInt.is_int end_ ->
  end_ - start + 1 <= maxCap - 2 ^ 64 ->
  seq (S fuel) start end_ = Some (Return []) /\ seq 0 start end_ = None.
Proof.
  intros Hs He Hd. unfold seq.
  rewrite seq_cap, wrap_below, makeslice_0_ok by (int_consts; lia).
  rewrite seq_loop_empty by (int_consts; lia). split; reflexivity.
Qed.

Lemma seq_panics_wrapped_big (fuel : nat) (start end_ : Z) :
  GoInt.is_int start -> GoInt.is_int end_ ->
  maxCap - 2 ^ 64 < end_ - start + 1 < GoInt.MinInt ->
  seq fuel start end_ = Some (Panic makeslice_cap_out_of_range).
Proof.
  intros Hs He Hd. unfold seq.
  rewrite seq_cap, wrap_below, makeslice_0_big by (int_consts; lia).
  reflexivity.
Qed.

Lemma seq_diverges_MaxInt (fuel : nat) (start : Z) :
  GoInt.is_int start ->
  GoInt.MaxInt - start + 1 <= maxCap \/ GoInt.MaxInt - start + 1 = 2 ^ 64 ->
  seq fuel start GoInt.MaxInt = None.
Proof.
  intros Hs Hd. unfold seq. rewrite seq_cap.
  destruct Hd as [Hd|Hd].
  - rewrite wrap_id, makeslice_0_ok by (int_consts; lia).
    now rewrite seq_loop_MaxInt.
  - rewrite Hd. change (GoInt.wrap (2 ^ 64)) with 0.
    rewrite makeslice_0_ok by (int_consts; lia).
    now rewrite seq_loop_MaxInt.
Qed.

(** Below the fuel the range needs, [seq] is still running. *)
Lemma seq_short_fuel (fuel : nat) (start end_ : Z) :
  GoInt.is_int start -> GoInt.is_int end_ ->
  0 <= end_ - start + 1 <= maxCap ->
  (fuel <= Z.to_nat (end_ - start + 1))%nat ->
  seq fuel start end_ = None.
Proof.
  intros Hs He Hd Hfuel. unfold seq.
  rewrite seq_cap, wrap_id, makeslice_0_ok by (int_consts; lia).
  destruct fuel as [|fuel]; [reflexivity|].
  rewrite seq_loop_short; [reflexivity | int_consts; lia ..].
Qed.

(** The three ways a call of [seq] on ints goes, by the bounds alone. *)
Lemma seq_trichotomy (start end_ : Z) :
  GoInt.is_int start -> GoInt.is_int end_ ->
  let d := end_ - start + 1 in
  ((0 <= d <= maxCap /\ end_ < GoInt.MaxInt \/ d <= maxCap - 2 ^ 64) /\
   (forall fuel, (Z.to_nat d < fuel)%nat ->
      seq fuel start end_ = Some (Return (interval start end_))) /\
   (forall fuel, (fuel <= Z.to_nat d)%nat -> seq fuel start end_ = None)) \/
  ((maxCap - 2 ^ 64 < d < 0 \/ maxCap < d < 2 ^ 64) /\
   forall fuel, seq fuel start end_ = Some (Panic makeslice_cap_out_of_range)) \/
  (end_ = GoInt.MaxInt /\ (1 <= d <= maxCap \/ d = 2 ^ 64) /\
   forall fuel, seq fuel start end_ = None).
Proof.
  intros Hs He d. pose proof (is_int_diff start end_ Hs He) as Hd. fold d in Hd.
  destruct (Z_le_gt_dec d (maxCap - 2 ^ 64)) as [H1|H1].
  { left. split; [now right|]. split.
    - intros [|fuel] Hf; [lia|].
      replace (interval start end_) with (@nil Z)
        by (unfold interval; fold d; replace (Z.to_nat d) with 0%nat
              by (int_consts; lia); reflexivity).
      now apply seq_wrapped_reversed.
    - intros fuel Hf. replace fuel with 0%nat by (int_consts; lia).
      now apply (seq_wrapped_reversed 0). }
  destruct (Z_lt_ge_dec d 0) as [H2|H2].
  { right; left. split; [left; lia|]. intros fuel.
    destruct (Z_lt_ge_dec d GoInt.MinInt).
    - apply seq_panics_wrapped_big; auto. fold d. lia.
    - apply seq_panics_neg. fold d. lia. }
  destruct (Z_le_gt_dec d maxCap) as [H3|H3].
  { destruct (Z.eq_dec end_ GoInt.MaxInt) as [->|Hne].
    - right; right. split; [reflexivity|].
      assert (1 <= d) by (unfold d; int_consts; lia).
      split; [left; lia|]. intros fuel.
      apply seq_diverges_MaxInt; [exact Hs | left; exact H3].
    - left. split; [left; int_consts; lia|]. split.
      + intros fuel Hf. apply seq_returns; auto; fold d; int_consts; lia.
      + intros fuel Hf. apply seq_short_fuel; auto. fold d. lia. }
  destruct (Z.eq_dec d (2 ^ 64)) as [H4|H4].
  { assert (end_ = GoInt.MaxInt) as -> by (unfold d in H4; int_consts; lia).
    right; right. split; [reflexivity|]. split; [now right|].
    intros fuel. apply seq_diverges_MaxInt; [exact Hs | right; exact H4]. }
  right; left. split; [right; lia|]. intros fuel.
  destruct (Z_le_gt_dec d GoInt.MaxInt).
  - apply seq_panics_big. fold d. lia.
  - apply seq_panics_wrap. fold d. lia.
Qed.

(** Whenever [seq] returns a slice on ints, the slice is the range. *)
Lemma seq_Return_interval (fuel : nat) (start end_ : Z) (s : list Z) :
  GoInt.is_int start -> GoInt.is_int end_ ->
  seq fuel start end_ = Some (Return s) -> s = interval start end_.
Proof.
  intros Hs He H.
  destruct (seq_trichotomy start end_ Hs He) as [(_ & Hr & Hn)|[(_ & Hp)|(_ & _ & Hn)]].
  - destruct (Nat.lt_ge_cases (Z.to_nat (end_ - start + 1)) fuel) as [Hf|Hf].
    + rewrite Hr in H by exact Hf. congruence.
    + rewrite Hn in H by exact Hf. discriminate.
  - rewrite Hp in H. discriminate.
  - rewrite Hn in H. discriminate.
Qed.

(** A panic of [seq] is the capacity panic of [make]. *)
Lemma seq_Panic_cap (fuel : nat) (start end_ : Z) (e : runtimeError) :
  seq fuel start end_ = Some (Panic e) ->
  makeslice 0 (GoInt.add (GoInt.sub end_ start) 1) = Panic makeslice_cap_out_of_range /\
  e = makeslice_cap_out_of_range.
Proof.
  unfold seq.
  destruct (makeslice 0 _) as [s|e'] eqn:Hm.
  - destruct (seq_loop fuel end_ (start, s)); discriminate.
  - intros [= <-]. unfold makeslice in Hm.
    destruct (_ || _ || _ || _)%bool in Hm; [|discriminate].
    cbn in Hm. split; congruence.
Qed.

Lemma zrange_NoDup (n : nat) : forall a : Z, NoDup (zrange a n).
Proof.
  induction n as [|n IH]; intros a; simpl; constructor.
  - rewrite zrange_In. lia.
  - apply IH.
Qed.

Lemma zrange_app (n m : nat) : forall a : Z,
  zrange a (n + m) = (zrange a n ++ zrange (a + Z.of_nat n) m)%list.
Proof.
  induction n as [|n IH]; intros a.
  - simpl. now rewrite Z.add_0_r.
  - cbn [Nat.add zrange app]. rewrite IH. do 3 f_equal. lia.
Qed.

Lemma interval_app (a b c : Z) :
  a <= b + 1 -> b <= c ->
  interval a c = (interval a b ++ interval (b + 1) c)%list.
Proof.
  intros Hab Hbc. unfold interval.
  replace (Z.to_nat (c - a + 1))
    with (Z.to_nat (b - a + 1) + Z.to_nat (c - (b + 1) + 1))%nat by lia.
  rewrite zrange_app. do 2 f_equal. lia.
Qed.

Lemma interval_In (a b x : Z) : In x (interval a b) <-> a <= x <= b.
Proof. unfold interval. rewrite zrange_In. lia. Qed.

(** X1: whatever the ints start and end and whatever the fuel, a slice
    that [seq] returns is the ascending range start, ..., end and nothing
    else: a number is in it exactly when it lies between start and end, no
    number is repeated, and its length is max(0, end - start + 1) (so it is
    empty for every reversed range that gets past [make]). *)
Theorem seq_returns_exact_range (fuel : nat) (start end_ : Z) (s : list Z) :
  GoInt.is_int start -> GoInt.is_int end_ ->
  seq fuel start end_ = Some (Return s) ->
  s = interval start end_ /\
  (forall x : Z, In x s <-> start <= x <= end_) /\
  NoDup s /\ StronglySorted Z.lt s /\
  Z.of_nat (List.length s) = Z.max 0 (end_ - start + 1) /\
  Forall GoInt.is_int s.
Proof.
  intros Hs He H.
  apply seq_Return_interval in H; auto. subst s.
  split; [reflexivity|].
  split; [intros x; apply interval_In|].
  split; [apply zrange_NoDup|].
  split; [apply zrange_sorted|].
  split; [apply interval_length|].
  apply Forall_forall. intros x Hx. apply interval_In in Hx.
  unfold GoInt.is_int in *. lia.
Qed.

Lemma seq_returns_exact_range_witness :
  [-1; 0; 1] = interval (-1) 1 /\
  (forall x : Z, In x [-1; 0; 1] <-> -1 <= x <= 1) /\
  NoDup [-1; 0; 1] /\ StronglySorted Z.lt [-1; 0; 1] /\
  Z.of_nat (List.length [-1; 0; 1]) = Z.max 0 (1 - -1 + 1) /\
  Forall GoInt.is_int [-1; 0; 1].
Proof.
  apply (seq_returns_exact_range 4 (-1) 1 [-1; 0; 1]).
  - unfold GoInt.is_int, GoInt.MinInt, GoInt.MaxInt. lia.
  - unfold GoInt.is_int, GoInt.MinInt, GoInt.MaxInt. lia.
  - reflexivity.
Defined.



(** ** The template run on every pair of ints *)

Lemma join_after_app (sep : string) (l1 l2 : list string) :
  join_after sep (l1 ++ l2)%list = (join_after sep l1 ++ join_after sep l2)%string.
Proof.
  induction l1 as [|t l1 IH]; simpl; [reflexivity|].
  now rewrite IH, !append_assoc.
Qed.



(** X9: what the range body writes can be read back: for every list of
    numbers, written with the separator " ", the text added to the buffer
    splits at the spaces into one numeral per number, and the numerals read
    back as the list, in order (negative numbers and repetitions included);
    and writing a list in two parts gives the same text as writing it at
    once. *)
Theorem walkRange_roundtrip (l : list Z) (wr : string) :
  (exists (body : string) (toks : list string),
     walkRange " " l wr = (wr ++ body)%string /\
     split_tokens body = Some toks /\
     List.length toks = List.length l /\
     map atoi toks = map Some l) /\
  (forall (sep : string) (l1 l2 : list Z),
     l = (l1 ++ l2)%list ->
     walkRange sep l wr = walkRange sep l2 (walkRange sep l1 wr)).
Proof.
  split.
  - exists (join_after " " (map itoa l)), (map itoa l).
    split; [apply walkRange_spec|].
    split; [apply split_tokens_join, Forall_itoa_no_space|].
    split; [apply length_map | apply map_atoi_itoa].
  - intros sep l1 l2 ->. rewrite !walkRange_spec, map_app, join_after_app.
    now rewrite append_assoc.
Qed.

Lemma walkRange_roundtrip_witness :
  walkRange "," [3; -1; 3] "x" = walkRange "," [-1; 3] (walkRange "," [3] "x").
Proof.
  apply (proj2 (walkRange_roundtrip [3; -1; 3] "x"%string) ","%string [3] [-1; 3]).
  reflexivity.
Defined.

(** ** [demoStruct.AppendText] *)

Lemma append_inj_l (p s1 s2 : string) :
  (p ++ s1 = p ++ s2)%string -> s1 = s2.
Proof.
  induction p as [|c p IH]; simpl; intros H; [exact H|].
  injection H as H. now apply IH.
Qed.

Lemma append_char_inj_r (c : ascii) (s1 : string) : forall s2 : string,
  (s1 ++ String c "" = s2 ++ String c "")%string -> s1 = s2.
Proof.
  induction s1 as [|a s1 IH]; intros [|b s2] H; simpl in H.
  - reflexivity.
  - injection H as _ H. destruct s2; discriminate.
  - injection H as _ H. destruct s1; discriminate.
  - injection H as -> H. f_equal. now apply IH.
Qed.

Lemma itoa_inj (a b : Z) : itoa a = itoa b -> a = b.
Proof.
  intros H. assert (H' : atoi (itoa a) = atoi (itoa b)) by now rewrite H.
  rewrite !atoi_itoa in H'. congruence.
Qed.

(** X10: [AppendText] only appends, and the appended text determines the
    value: what [dst] held stays in front, two calls in a row leave the two
    texts one after the other, and two values that give the same result on
    the same [dst] are equal. *)
Theorem AppendText_injective (dst : string) (v1 v2 : Z) :
  AppendText v1 dst = (dst ++ AppendText v1 "")%string /\
  AppendText v2 (AppendText v1 dst) =
    (dst ++ AppendText v1 "" ++ AppendText v2 "")%string /\
  (AppendText v1 dst = AppendText v2 dst -> v1 = v2).
Proof.
  assert (F : forall (v : Z) (d : string),
             AppendText v d = (d ++ AppendText v "")%string) by reflexivity.
  split; [apply F|]. split.
  - rewrite (F v2), (F v1 dst). apply append_assoc.
  - unfold AppendText. intros H.
    apply append_inj_l in H. apply (append_inj_l "demoStruct(") in H.
    apply append_char_inj_r in H. now apply itoa_inj.
Qed.

Lemma AppendText_injective_witness : 123 = 123.
Proof.
  apply (proj2 (proj2 (AppendText_injective "buf: " 123 123))). reflexivity.
Defined.

(** ** The demos and [main] on every environment *)

(** X11: [DemoDirectoryLimitedFS] lists the directory only when all four
    file-system calls succeeded, and then prints the header and one line per
    entry (the header alone for an empty directory); when any of them fails it
    returns after printing exactly one line, which is not the header. *)
Theorem DemoDirectoryLimitedFS_listing (env : Env) :
  snd (DemoDirectoryLimitedFS env) = Returned /\
  (forall entries : list string,
     (exists dir, os_MkdirTemp env = inl dir) /\ os_WriteFile env = None /\
     os_Open env = None /\ Readdir env = inl entries ->
     fst (DemoDirectoryLimitedFS env) =
       "Files in limited FS:"%string :: map (fun name => (" - " ++ name)%string) entries) /\
  ((~ exists entries : list string,
       (exists dir, os_MkdirTemp env = inl dir) /\ os_WriteFile env = None /\
       os_Open env = None /\ Readdir env = inl entries) ->
   List.length (fst (DemoDirectoryLimitedFS env)) = 1%nat /\
   ~ In "Files in limited FS:"%string (fst (DemoDirectoryLimitedFS env))).
Proof.
  assert (Hfail : forall line : string,
            line <> "Files in limited FS:"%string ->
            List.length [line] = 1%nat /\ ~ In "Files in limited FS:"%string [line]).
  { intros line Hne. split; [reflexivity|]. intros [H|[]]. now apply Hne. }
  unfold DemoDirectoryLimitedFS.
  destruct (os_MkdirTemp env) as [dir|err] eqn:H1.
  2: { split; [reflexivity|]. split.
       - intros entries ((dir' & Hd) & _). discriminate.
       - intros _. apply Hfail. discriminate. }
  destruct (os_WriteFile env) as [err|] eqn:H2.
  { split; [reflexivity|]. split.
    - intros entries (_ & Hw & _). discriminate.
    - intros _. apply Hfail. discriminate. }
  destruct (os_Open env) as [err|] eqn:H3.
  { split; [reflexivity|]. split.
    - intros entries (_ & _ & Ho & _). discriminate.
    - intros _. apply Hfail. discriminate. }
  destruct (Readdir env) as [entries|err] eqn:H4.
  - split; [reflexivity|]. split.
    + intros entries' (_ & _ & _ & [= <-]). reflexivity.
    + intros Hno. exfalso. apply Hno. exists entries. eauto.
  - split; [reflexivity|]. split.
    + intros entries (_ & _ & _ & Hr). discriminate.
    + intros _. apply Hfail. discriminate.
Qed.

Lemma DemoDirectoryLimitedFS_listing_witness :
  fst (DemoDirectoryLimitedFS
         {| finalizer_ran := false; pbkdf2_Key := inr "err"%string;
            sha3_Sum := ""%string; os_MkdirTemp := inl "/tmp/demo-root1"%string;
            os_WriteFile := None; os_Open := None;
            Readdir := inl ["example.txt"%string];
            netip_ParseAddr := inr "err"%string; regexp_text := "a*b"%string;
            bigInt_text := ""%string; rand_Int := 0;
            syncMap_key1_first := true; time_text := ""%string;
            maphash_Sum64 := 0 |}) =
    ["Files in limited FS:"%string; " - example.txt"%string].
Proof.
  apply (proj1 (proj2 (DemoDirectoryLimitedFS_listing _)) ["example.txt"%string]).
  simpl. repeat split. exists "/tmp/demo-root1"%string. reflexivity.
Defined.

Lemma output_app (evs1 evs2 : list event) :
  output (evs1 ++ evs2) = (output evs1 ++ output evs2)%list.
Proof.
  induction evs1 as [|[line|f] evs1 IH]; simpl; [reflexivity| |exact IH].
  now rewrite IH.
Qed.

Lemma output_map_Out (lines : list string) : output (map Out lines) = lines.
Proof. induction lines as [|l lines IH]; simpl; [reflexivity | now rewrite IH]. Qed.

(** When every call returns, the lines of a run are the lines of its
    statements, in order. *)
Lemma exec_output (fuel : nat) (env : Env) (prog : list stmt) :
  (forall f, exists lines, call f fuel env = Some (lines, Returned)) ->
  exists evs, exec fuel env prog = Some (evs, Returned) /\
              output evs = flat_map (printed fuel env) prog.
Proof.
  intros Hcall. induction prog as [|st prog (evs & Hex & Hout)]; simpl.
  - now exists [].
  - destruct st as [line|f].
    + rewrite Hex. exists (Out line :: evs). simpl. now rewrite Hout.
    + destruct (Hcall f) as [lines Hf]. rewrite Hf, Hex.
      eexists. split; [reflexivity|].
      simpl. now rewrite output_app, output_map_Out, Hout, Hf.
Qed.

(** X12: on every run, whatever the environment hands back, the output
    of [main] starts with the opening banner and ends with the closing one,
    the line "Template output: Numbers: 1 2 3 4 5 " is printed in between, and
    the note "Text Template Range Demo: Not implemented" is printed after it,
    although [DemoTextTemplate] has run. *)
Theorem main_output_frame (env : Env) (n : nat) :
  exists (evs : list event) (pre post : list string),
    exec (6 + n) env main = Some (evs, Returned) /\
    output evs =
      ("=== Go 1.24 Demo ==="%string :: pre
       ++ "Template output: Numbers: 1 2 3 4 5 "%string :: post
       ++ ["=== Go 1.24 Demo End ==="%string])%list /\
    In "CGO Improvements Demo: Not implemented"%string pre /\
    In "Text Template Range Demo: Not implemented"%string post.
Proof.
  destruct (exec_output (6 + n) env main (fun f => call_returns f env n))
    as (evs & Hex & Hout).
  set (seg1 := [Call f_demoGenericTypeAlias;
                Println "CGO Improvements Demo: Not implemented";
                Call f_DemoFinalizers; Call f_DemoCryptoPackages;
                Call f_DemoDirectoryLimitedFS;
                Call f_DemoBytesAndStringsIterators; Call f_DemoEncodingAppend;
                Call f_DemoNetipEncoding; Call f_DemoRegexpEncoding;
                Call f_DemoRuntimeGOROOT]).
  set (seg2 := [Call f_DemoMathBigEncoding; Call f_DemoMathRand;
                Call f_DemoSyncMap; Call f_DemoSlog;
                Println "Text Template Range Demo: Not implemented";
                Call f_DemoTimeEncoding; Call f_DemoSynctest;
                Call f_DemoGoTypesIterators; Call f_DemoMaphashComparable]).
  change main with
    ([Println "=== Go 1.24 Demo ==="] ++ seg1 ++ [Call f_DemoTextTemplate]
     ++ seg2 ++ [Println "=== Go 1.24 Demo End ==="])%list in Hout.
  rewrite !flat_map_app in Hout.
  exists evs, (flat_map (printed (6 + n) env) seg1),
         (flat_map (printed (6 + n) env) seg2).
  split; [exact Hex|]. split; [exact Hout|]. split.
  - apply in_flat_map. exists (Println "CGO Improvements Demo: Not implemented").
    split; [unfold seg1; simpl; auto | simpl; auto].
  - apply in_flat_map. exists (Println "Text Template Range Demo: Not implemented").
    split; [unfold seg2; simpl; auto 10 | simpl; auto].
Qed.

(** * The code with the allocator's answers *)

(** ** [make] and the loop *)

Lemma uintptr_small (n : Z) : 0 <= n <= maxCap -> uintptr n = n.
Proof. intros H. unfold uintptr. apply Z.mod_small. int_consts. lia. Qed.

Lemma makeslice_mem_0 (h : Allocator) (cap : Z) :
  GoInt.is_int cap ->
  makeslice_mem h 0 cap =
    if (0 <=? cap) && (cap <=? maxCap)
    then if mallocgc h (int_size * cap) then Alive (Return ([], cap)) else Died
    else Alive (Panic makeslice_cap_out_of_range).
Proof.
  intros Hc. unfold makeslice_mem. rewrite (makeslice_0_spec _ Hc).
  destruct (Z.leb_spec 0 cap); destruct (Z.leb_spec cap maxCap); simpl; auto.
  now rewrite uintptr_small by lia.
Qed.

(** What [make] having returned means. *)
Lemma makeslice_mem_Return (h : Allocator) (cap : Z) (s : slice) :
  GoInt.is_int cap ->
  makeslice_mem h 0 cap = Alive (Return s) ->
  0 <= cap <= maxCap /\ mallocgc h (int_size * cap) = true /\ s = ([], cap).
Proof.
  intros Hc. rewrite (makeslice_mem_0 _ _ Hc).
  destruct (Z.leb_spec 0 cap); destruct (Z.leb_spec cap maxCap); cbn [andb];
    try discriminate.
  destruct (mallocgc h (int_size * cap)); [|discriminate].
  intros [= <-]. repeat split; lia.
Qed.

(** While the capacity lasts, the loop never reaches [growslice] and runs as
    the loop on lists does. *)
Lemma seq_loop_mem_within (h : Allocator) (end_ : Z) (fuel : nat) :
  forall (i : Z) (l : list Z) (cap : Z),
  GoInt.MinInt <= i -> end_ < GoInt.MaxInt ->
  Z.of_nat (List.length l) + Z.max 0 (end_ - i + 1) <= cap ->
  seq_loop_mem h fuel end_ i (l, cap) =
    option_map (fun s => Alive (Return s)) (seq_loop fuel end_ (i, l)).
Proof.
  induction fuel as [|fuel IH]; intros i l cap Hlo Hhi Hcap; [reflexivity|].
  simpl. unfold loop_cond. simpl fst.
  destruct (Z.leb_spec i end_) as [Hle|Hgt]; [|reflexivity].
  unfold append_mem. simpl fst; simpl snd.
  replace (cap <? Z.of_nat (List.length l) + 1) with false
    by (symmetry; apply Z.ltb_ge; lia).
  unfold loop_body. simpl fst; simpl snd.
  apply IH.
  - rewrite incr_small by lia. lia.
  - exact Hhi.
  - rewrite incr_small by lia. rewrite length_app. simpl. lia.
Qed.

(** When [make]'s request is served and [end] is below [MaxInt], the run is
    the run in which the allocator serves every request. *)
Lemma seq_mem_agrees (h : Allocator) (fuel : nat) (start end_ : Z) :
  GoInt.is_int start -> GoInt.is_int end_ -> end_ < GoInt.MaxInt ->
  mallocgc h (int_size * GoInt.add (GoInt.sub end_ start) 1) = true ->
  seq_mem h fuel start end_ = option_map Alive (seq fuel start end_).
Proof.
  intros Hs He Hmax Hg. unfold seq_mem, seq.
  pose proof (wrap_is_int (GoInt.sub end_ start + 1)) as Hc.
  fold (GoInt.add (GoInt.sub end_ start) 1) in Hc.
  rewrite (makeslice_mem_0 _ _ Hc), (makeslice_0_spec _ Hc).
  destruct (Z.leb_spec 0 (GoInt.add (GoInt.sub end_ start) 1)) as [H0|H0];
    [|reflexivity].
  destruct (Z.leb_spec (GoInt.add (GoInt.sub end_ start) 1) maxCap) as [H1|H1];
    [|reflexivity].
  cbn [andb]. rewrite Hg.
  rewrite seq_loop_mem_within; [now destruct (seq_loop _ _ _) | | exact Hmax |].
  - unfold GoInt.is_int in Hs. lia.
  - cbn [List.length Z.of_nat Z.add]. rewrite seq_cap in H0, H1 |- *.
    pose proof (is_int_diff start end_ Hs He) as Hd.
    destruct (Z_lt_ge_dec (end_ - start + 1) 0) as [Hn|Hn]; [lia|].
    destruct (Z_le_gt_dec (end_ - start + 1) GoInt.MaxInt) as [Hm|Hm].
    + rewrite wrap_id in * by (int_consts; lia). lia.
    + rewrite wrap_above in H0 by (int_consts; lia). int_consts. lia.
Qed.

(** A request of [make] the allocator does not serve kills the process
    before the loop. *)
Lemma seq_mem_Died (h : Allocator) (fuel : nat) (start end_ : Z) :
  0 <= GoInt.add (GoInt.sub end_ start) 1 <= maxCap ->
  mallocgc h (int_size * GoInt.add (GoInt.sub end_ start) 1) = false ->
  seq_mem h fuel start end_ = Some Died.
Proof.
  intros Hc Hg. unfold seq_mem.
  pose proof (wrap_is_int (GoInt.sub end_ start + 1)) as Hi.
  fold (GoInt.add (GoInt.sub end_ start) 1) in Hi.
  rewrite (makeslice_mem_0 _ _ Hi).
  replace (0 <=? _) with true by (symmetry; apply Z.leb_le; lia).
  replace (_ <=? maxCap) with true by (symmetry; apply Z.leb_le; lia).
  cbn [andb]. now rewrite Hg.
Qed.

(** A capacity that fails the size test panics whatever the allocator. *)
Lemma seq_mem_Panic (h : Allocator) (fuel : nat) (start end_ : Z) (e : runtimeError) :
  seq fuel start end_ = Some (Panic e) ->
  seq_mem h fuel start end_ = Some (Alive (Panic e)).
Proof.
  intros H. destruct (seq_Panic_cap _ _ _ _ H) as [Hm ->].
  unfold seq_mem, makeslice_mem. now rewrite Hm.
Qed.

(** With [end = MaxInt] the loop has no way out through its condition. *)
Lemma seq_loop_mem_MaxInt (h : Allocator) (fuel : nat) :
  forall (i : Z) (s : slice) (l : list Z),
  GoInt.is_int i ->
  seq_loop_mem h fuel GoInt.MaxInt i s <> Some (Alive (Return l)).
Proof.
  induction fuel as [|fuel IH]; intros i s l Hi; [discriminate|].
  simpl.
  replace (i <=? GoInt.MaxInt) with true
    by (symmetry; apply Z.leb_le; unfold GoInt.is_int in Hi; lia).
  destruct (append_mem h s i) as [[s'|e]|]; try discriminate.
  apply IH, incr_is_int.
Qed.

Lemma seq_mem_MaxInt (h : Allocator) (fuel : nat) (start : Z) (l : list Z) :
  GoInt.is_int start ->
  seq_mem h fuel start GoInt.MaxInt <> Some (Alive (Return l)).
Proof.
  intros Hs. unfold seq_mem.
  destruct (makeslice_mem h 0 _) as [[s|e]|]; try discriminate.
  now apply seq_loop_mem_MaxInt.
Qed.

(** What [seq] having returned a slice means. *)
Lemma seq_mem_Return (h : Allocator) (fuel : nat) (start end_ : Z) (s : list Z) :
  GoInt.is_int start -> GoInt.is_int end_ ->
  seq_mem h fuel start end_ = Some (Alive (Return s)) ->
  end_ < GoInt.MaxInt /\
  0 <= GoInt.add (GoInt.sub end_ start) 1 <= maxCap /\
  mallocgc h (int_size * GoInt.add (GoInt.sub end_ start) 1) = true /\
  seq fuel start end_ = Some (Return s).
Proof.
  intros Hs He H.
  assert (Hmax : end_ < GoInt.MaxInt).
  { destruct (Z.eq_dec end_ GoInt.MaxInt) as [->|];
      [now apply seq_mem_MaxInt in H | unfold GoInt.is_int in He; lia]. }
  pose proof (wrap_is_int (GoInt.sub end_ start + 1)) as Hi.
  fold (GoInt.add (GoInt.sub end_ start) 1) in Hi.
  assert (Hm : exists s0, makeslice_mem h 0 (GoInt.add (GoInt.sub end_ start) 1)
                          = Alive (Return s0)).
  { unfold seq_mem in H.
    destruct (makeslice_mem h 0 _) as [[s0|e]|]; try discriminate.
    now exists s0. }
  destruct Hm as [s0 Hm].
  destruct (makeslice_mem_Return _ _ _ Hi Hm) as (Hc & Hg & _).
  split; [exact Hmax|]. split; [exact Hc|]. split; [exact Hg|].
  rewrite (seq_mem_agrees h fuel start end_ Hs He Hmax Hg) in H.
  destruct (seq fuel start end_) as [[s'|e]|]; simpl in H; congruence.
Qed.

(** ** The output buffer *)

Lemma length_append (s1 s2 : string) :
  String.length (s1 ++ s2) = (String.length s1 + String.length s2)%nat.
Proof. induction s1 as [|c s1 IH]; simpl; [reflexivity | now rewrite IH]. Qed.

Lemma buffer_serves_le (h : Allocator) (N M : Z) :
  buffer_serves h N -> M <= N -> buffer_serves h M.
Proof. intros H Hle n Hn. apply H. lia. Qed.

Lemma Write_serves (h : Allocator) (N : Z) (wr text : string) :
  buffer_serves h N -> Z.of_nat (String.length (wr ++ text)) <= N ->
  Write h wr text = Alive (wr ++ text)%string.
Proof.
  intros H Hle. destruct text as [|c text].
  - simpl. now rewrite append_nil_r.
  - unfold Write. rewrite H; [reflexivity|].
    split; [|exact Hle]. rewrite length_append. simpl. lia.
Qed.

Lemma walkRange_mem_serves (h : Allocator) (sep : string) (s : list Z) :
  forall wr : string,
  buffer_serves h (Z.of_nat (String.length (walkRange sep s wr))) ->
  walkRange_mem h sep s wr = Alive (walkRange sep s wr).
Proof.
  induction s as [|i s IH]; intros wr H; [reflexivity|].
  cbn [walkRange_mem walkRange] in *.
  assert (Hlen : (String.length ((wr ++ itoa i) ++ sep)
                  <= String.length (walkRange sep s (wr ++ itoa i ++ sep)))%nat).
  { rewrite walkRange_spec, !length_append. lia. }
  rewrite (Write_serves h _ wr (itoa i) H)
    by (rewrite !length_append in Hlen; rewrite length_append; lia).
  rewrite (Write_serves h _ (wr ++ itoa i) sep H) by lia.
  rewrite append_assoc. now apply IH.
Qed.

(** When [seq] runs as under the serving allocator and the buffer gets the
    memory for the text, the run of the template is the run in which the
    allocator serves every request. *)
Lemma Execute_mem_agrees (h : Allocator) (fuel : nat) (prefix sep wr out : string)
    (start end_ : Z) (e : option ExecError) :
  seq_mem h fuel start end_ = option_map Alive (seq fuel start end_) ->
  Execute fuel prefix start end_ sep wr = Some (out, e) ->
  buffer_serves h (Z.of_nat (String.length out)) ->
  Execute_mem h fuel prefix start end_ sep wr = Some (Alive (out, e)).
Proof.
  intros Hseq HE Hb. unfold Execute in HE. unfold Execute_mem. rewrite Hseq.
  destruct (seq fuel start end_) as [[s|e']|]; [| |discriminate].
  - injection HE as <- <-.
    rewrite (Write_serves h _ wr prefix Hb)
      by (rewrite walkRange_spec, (length_append (wr ++ prefix)); lia).
    cbn [option_map]. now rewrite walkRange_mem_serves.
  - injection HE as <- <-.
    now rewrite (Write_serves h _ wr prefix Hb) by lia.
Qed.

Lemma render_mem_agrees (h : Allocator) (fuel : nat) (prefix sep out : string)
    (start end_ : Z) :
  seq_mem h fuel start end_ = option_map Alive (seq fuel start end_) ->
  render fuel prefix start end_ sep = Some (inl out) ->
  buffer_serves h (Z.of_nat (String.length out)) ->
  render_mem h fuel prefix start end_ sep = Some (Alive (inl out)).
Proof.
  intros Hseq HR Hb. unfold render in HR. unfold render_mem.
  destruct (Execute fuel prefix start end_ sep "") as [[out' [e|]]|] eqn:HE;
    try discriminate.
  injection HR as ->.
  now rewrite (Execute_mem_agrees h _ _ _ _ _ _ _ _ Hseq HE Hb).
Qed.

(** A text of [render_mem] comes from a slice of [seq_mem]. *)
Lemma render_mem_inl_seq (h : Allocator) (fuel : nat) (prefix sep out : string)
    (start end_ : Z) :
  render_mem h fuel prefix start end_ sep = Some (Alive (inl out)) ->
  exists s, seq_mem h fuel start end_ = Some (Alive (Return s)).
Proof.
  unfold render_mem, Execute_mem.
  destruct (Write h "" prefix) as [wr1|]; [|discriminate].
  destruct (seq_mem h fuel start end_) as [[[s|e]|]|]; try discriminate.
  intros _. now exists s.
Qed.

(** ** The amended claims *)

Lemma seq_cap_in_bounds (start end_ : Z) :
  start <= end_ + 1 -> end_ - start + 1 <= maxCap ->
  GoInt.add (GoInt.sub end_ start) 1 = end_ - start + 1.
Proof. intros H1 H2. rewrite seq_cap. apply wrap_id. int_consts. lia. Qed.

Lemma mallocgc_grants (h : Allocator) (size : Z) :
  grants h size = true -> mallocgc h size = true.
Proof. intros H. unfold mallocgc. rewrite H. apply orb_true_r. Qed.

Lemma seq_mem_returns (h : Allocator) (fuel : nat) (start end_ : Z) :
  GoInt.is_int start -> GoInt.is_int end_ ->
  start <= end_ + 1 -> end_ - start + 1 <= maxCap -> end_ < GoInt.MaxInt ->
  mallocgc h (int_size * (end_ - start + 1)) = true ->
  (Z.to_nat (end_ - start + 1) < fuel)%nat ->
  seq_mem h fuel start end_ = Some (Alive (Return (interval start end_))).
Proof.
  intros Hs He Hle Hcap Hmax Hg Hfuel.
  rewrite seq_mem_agrees by (auto; now rewrite seq_cap_in_bounds).
  now rewrite seq_returns.
Qed.

Lemma render_mem_returns (h : Allocator) (fuel : nat) (prefix sep : string)
    (start end_ : Z) :
  GoInt.is_int start -> GoInt.is_int end_ ->
  start <= end_ + 1 -> end_ - start + 1 <= maxCap -> end_ < GoInt.MaxInt ->
  mallocgc h (int_size * (end_ - start + 1)) = true ->
  buffer_serves h
    (Z.of_nat (String.length
                 (prefix ++ join_after sep (map itoa (interval start end_))))) ->
  (Z.to_nat (end_ - start + 1) < fuel)%nat ->
  Execute_mem h fuel prefix start end_ sep "" =
    Some (Alive ((prefix ++ join_after sep (map itoa (interval start end_)))%string,
                 None)) /\
  render_mem h fuel prefix start end_ sep =
    Some (Alive (inl (prefix ++ join_after sep (map itoa (interval start end_)))%string)).
Proof.
  intros Hs He Hle Hcap Hmax Hg Hb Hfuel.
  assert (Hagree : seq_mem h fuel start end_ = option_map Alive (seq fuel start end_))
    by (apply seq_mem_agrees; auto; now rewrite seq_cap_in_bounds).
  assert (Hseq : seq fuel start end_ = Some (Return (interval start end_)))
    by now apply seq_returns.
  split.
  - apply Execute_mem_agrees; auto.
    now rewrite (Execute_Return _ _ _ _ _ _ _ Hseq).
  - apply render_mem_agrees; auto. now apply render_Return.
Qed.

(** C2, amended: for ints a <= b with b - a + 1 <= 2^45 (the capacity
    passes the size test of [make]) and b < MaxInt, on a run in which the
    allocator serves the block of 8 * (b - a + 1) bytes for the slice and
    gives the output buffer the memory for the text, [seq a b] returns the list
    a, a+1, ..., b of length b - a + 1, strictly ascending, and
    [render "Numbers: " a b " "] returns "Numbers: " followed by the decimal
    numerals of these numbers, each closed by one space: splitting the text at
    the spaces gives exactly the b - a + 1 numerals, and they read back as
    a, ..., b. *)
Theorem render_ascending (h : Allocator) (fuel : nat) (a b : Z) :
  GoInt.is_int a -> GoInt.is_int b ->
  a <= b -> b - a + 1 <= maxCap -> b < GoInt.MaxInt ->
  grants h (int_size * (b - a + 1)) = true ->
  buffer_serves h
    (Z.of_nat (String.length
                 ("Numbers: " ++ join_after " " (map itoa (interval a b))))) ->
  (Z.to_nat (b - a + 1) < fuel)%nat ->
  seq_mem h fuel a b = Some (Alive (Return (interval a b))) /\
  Z.of_nat (List.length (interval a b)) = b - a + 1 /\
  (forall k : nat, (k < List.length (interval a b))%nat ->
     nth k (interval a b) 0 = a + Z.of_nat k) /\
  StronglySorted Z.lt (interval a b) /\
  exists body : string,
    render_mem h fuel "Numbers: " a b " " =
      Some (Alive (inl ("Numbers: " ++ body)%string)) /\
    body = join_after " " (map itoa (interval a b)) /\
    split_tokens body = Some (map itoa (interval a b)) /\
    List.length (map itoa (interval a b)) = Z.to_nat (b - a + 1) /\
    map atoi (map itoa (interval a b)) = map Some (interval a b).
Proof.
  intros Ha Hb Hab Hcap Hmax Hg Hbuf Hfuel.
  apply mallocgc_grants in Hg.
  split; [apply seq_mem_returns; auto; lia|].
  split; [rewrite interval_length; lia|].
  split; [intros k Hk; unfold interval in *; rewrite zrange_length in Hk;
          now apply zrange_nth|].
  split; [apply zrange_sorted|].
  exists (join_after " " (map itoa (interval a b))).
  split; [apply render_mem_returns; auto; lia|].
  split; [reflexivity|].
  split; [apply split_tokens_join, Forall_itoa_no_space|].
  split; [rewrite length_map; apply zrange_length | apply map_atoi_itoa].
Qed.

Lemma render_ascending_witness :
  seq_mem one_page 6 1 5 = Some (Alive (Return (interval 1 5))) /\
  interval 1 5 = [1; 2; 3; 4; 5] /\
  exists body : string,
    render_mem one_page 6 "Numbers: " 1 5 " " =
      Some (Alive (inl ("Numbers: " ++ body)%string)) /\
    split_tokens body = Some (map itoa (interval 1 5)).
Proof.
  destruct (render_ascending one_page 6 1 5)
    as (Hs & _ & _ & _ & body & Hr & _ & Ht & _).
  - unfold GoInt.is_int, GoInt.MinInt, GoInt.MaxInt. lia.
  - unfold GoInt.is_int, GoInt.MinInt, GoInt.MaxInt. lia.
  - lia.
  - unfold maxCap. lia.
  - unfold GoInt.MaxInt. lia.
  - reflexivity.
  - intros n Hn. apply Z.leb_le, Z.le_trans with (1 := proj2 Hn).
    vm_compute. discriminate.
  - simpl. lia.
  - split; [exact Hs|]. split; [reflexivity|]. exists body. split; assumption.
Defined.

(** C3, amended: for ints start <= end + 1 (the empty range start = end + 1
    included) with end - start + 1 <= 2^45 and end < MaxInt, on a run in which
    the allocator serves the block of [make] and gives the output buffer the
    memory for the text, [seq] returns a slice and [render] returns a text,
    with no panic, no error and no death, for every fuel above the length of
    the range; and for start <= end + 1 a text is returned only when
    end - start + 1 <= 2^45, end < MaxInt and the block of [make] was
    served. *)
Theorem render_no_failure (h : Allocator) (prefix sep : string) (start end_ : Z) :
  GoInt.is_int start -> GoInt.is_int end_ -> start <= end_ + 1 ->
  (end_ - start + 1 <= maxCap /\ end_ < GoInt.MaxInt /\
   mallocgc h (int_size * (end_ - start + 1)) = true ->
   buffer_serves h
     (Z.of_nat (String.length
                  (prefix ++ join_after sep (map itoa (interval start end_))))) ->
   forall fuel : nat, (Z.to_nat (end_ - start + 1) < fuel)%nat ->
     exists (s : list Z) (out : string),
       seq_mem h fuel start end_ = Some (Alive (Return s)) /\
       Execute_mem h fuel prefix start end_ sep "" = Some (Alive (out, None)) /\
       render_mem h fuel prefix start end_ sep = Some (Alive (inl out))) /\
  ((exists fuel out,
      render_mem h fuel prefix start end_ sep = Some (Alive (inl out))) ->
   end_ - start + 1 <= maxCap /\ end_ < GoInt.MaxInt /\
   mallocgc h (int_size * (end_ - start + 1)) = true).
Proof.
  intros Hs He Hle. split.
  - intros (Hcap & Hmax & Hg) Hbuf fuel Hfuel.
    destruct (render_mem_returns h fuel prefix sep start end_) as [HE HR]; auto.
    exists (interval start end_),
           (prefix ++ join_after sep (map itoa (interval start end_)))%string.
    split; [now apply seq_mem_returns | split; assumption].
  - intros (fuel & out & H). apply render_mem_inl_seq in H as [s H].
    destruct (seq_mem_Return _ _ _ _ _ Hs He H) as (Hmax & Hc & Hg & Hseq).
    assert (Hb : end_ - start + 1 <= maxCap /\ end_ < GoInt.MaxInt)
      by (apply seq_returns_iff; auto; now exists fuel, s).
    destruct Hb as [Hcap _].
    rewrite seq_cap_in_bounds in Hg by assumption. auto.
Qed.

Lemma render_no_failure_witness :
  (exists (s : list Z) (out : string),
     seq_mem one_page 1 2 1 = Some (Alive (Return s)) /\
     Execute_mem one_page 1 "Numbers: " 2 1 " " "" = Some (Alive (out, None)) /\
     render_mem one_page 1 "Numbers: " 2 1 " " = Some (Alive (inl out))) /\
  (exists (s : list Z) (out : string),
     seq_mem one_page 4 7 9 = Some (Alive (Return s)) /\
     Execute_mem one_page 4 "Numbers: " 7 9 " " "" = Some (Alive (out, None)) /\
     render_mem one_page 4 "Numbers: " 7 9 " " = Some (Alive (inl out))).
Proof.
  split.
  - refine (proj1 (render_no_failure one_page "Numbers: " " " 2 1 _ _ _) _ _ 1%nat _).
    + unfold GoInt.is_int, GoInt.MinInt, GoInt.MaxInt. lia.
    + unfold GoInt.is_int, GoInt.MinInt, GoInt.MaxInt. lia.
    + lia.
    + split; [unfold maxCap; lia|]. split; [unfold GoInt.MaxInt; lia|]. reflexivity.
    + intros n Hn. apply Z.leb_le, Z.le_trans with (1 := proj2 Hn).
      vm_compute. discriminate.
    + simpl. lia.
  - refine (proj1 (render_no_failure one_page "Numbers: " " " 7 9 _ _ _) _ _ 4%nat _).
    + unfold GoInt.is_int, GoInt.MinInt, GoInt.MaxInt. lia.
    + unfold GoInt.is_int, GoInt.MinInt, GoInt.MaxInt. lia.
    + lia.
    + split; [unfold maxCap; lia|]. split; [unfold GoInt.MaxInt; lia|]. reflexivity.
    + intros n Hn. apply Z.leb_le, Z.le_trans with (1 := proj2 Hn).
      vm_compute. discriminate.
    + simpl. lia.
Defined.

(** C9, amended: for ints start <= end + 1 (start = end + 1 included) with
    end - start + 1 <= 2^45 and end < MaxInt, the capacity the code computes
    is end - start + 1 without wrap-around, it is not negative and it passes
    the size test of [make]; on a run in which the allocator serves that block
    (nothing is asked of it for capacity 0), [make] returns the empty slice of
    that capacity and [seq] returns a slice of length
    max(0, end - start + 1). *)
Theorem seq_capacity_ok (h : Allocator) (fuel : nat) (start end_ : Z) :
  GoInt.is_int start -> GoInt.is_int end_ -> start <= end_ + 1 ->
  end_ - start + 1 <= maxCap -> end_ < GoInt.MaxInt ->
  mallocgc h (int_size * (end_ - start + 1)) = true ->
  (Z.to_nat (end_ - start + 1) < fuel)%nat ->
  GoInt.add (GoInt.sub end_ start) 1 = end_ - start + 1 /\
  0 <= GoInt.add (GoInt.sub end_ start) 1 /\
  makeslice 0 (GoInt.add (GoInt.sub end_ start) 1) = Return [] /\
  makeslice_mem h 0 (GoInt.add (GoInt.sub end_ start) 1) =
    Alive (Return ([], end_ - start + 1)) /\
  exists s : list Z,
    seq_mem h fuel start end_ = Some (Alive (Return s)) /\
    Z.of_nat (List.length s) = Z.max 0 (end_ - start + 1).
Proof.
  intros Hs He Hle Hcap Hmax Hg Hfuel.
  rewrite (seq_cap_in_bounds _ _ Hle Hcap).
  split; [reflexivity|]. split; [lia|].
  split; [apply makeslice_0_ok; lia|]. split.
  - rewrite makeslice_mem_0 by (int_consts; lia).
    replace (0 <=? end_ - start + 1) with true by (symmetry; apply Z.leb_le; lia).
    replace (end_ - start + 1 <=? maxCap) with true
      by (symmetry; apply Z.leb_le; lia).
    cbn [andb]. now rewrite Hg.
  - exists (interval start end_). split.
    + now apply seq_mem_returns.
    + apply interval_length.
Qed.

Lemma seq_capacity_ok_witness :
  (GoInt.add (GoInt.sub 1 2) 1 = 1 - 2 + 1 /\
   0 <= GoInt.add (GoInt.sub 1 2) 1 /\
   makeslice 0 (GoInt.add (GoInt.sub 1 2) 1) = Return [] /\
   makeslice_mem one_page 0 (GoInt.add (GoInt.sub 1 2) 1) =
     Alive (Return ([], 1 - 2 + 1)) /\
   exists s : list Z,
     seq_mem one_page 1 2 1 = Some (Alive (Return s)) /\
     Z.of_nat (List.length s) = Z.max 0 (1 - 2 + 1)) /\
  (exists s : list Z,
     seq_mem one_page 6 1 5 = Some (Alive (Return s)) /\
     Z.of_nat (List.length s) = Z.max 0 (5 - 1 + 1)).
Proof.
  split.
  - apply (seq_capacity_ok one_page 1 2 1).
    + unfold GoInt.is_int, GoInt.MinInt, GoInt.MaxInt. lia.
    + unfold GoInt.is_int, GoInt.MinInt, GoInt.MaxInt. lia.
    + lia.
    + unfold maxCap. lia.
    + unfold GoInt.MaxInt. lia.
    + reflexivity.
    + simpl. lia.
  - apply (seq_capacity_ok one_page 6 1 5).
    + unfold GoInt.is_int, GoInt.MinInt, GoInt.MaxInt. lia.
    + unfold GoInt.is_int, GoInt.MinInt, GoInt.MaxInt. lia.
    + lia.
    + unfold maxCap. lia.
    + unfold GoInt.MaxInt. lia.
    + reflexivity.
    + simpl. lia.
Defined.

(** C10, as stated, fails: 2^45 is below MaxInt and
    max(0, 2^45 - 0 + 1) = 2^45 + 1, but [seq 0 2^45] panics in [make],
    whatever the allocator, and the result is there with no fuel at all: the
    loop is not entered, let alone run 2^45 + 1 times. *)
Lemma seq_0_2pow45_no_iteration :
  GoInt.is_int 0 /\ GoInt.is_int (2 ^ 45) /\ 2 ^ 45 < GoInt.MaxInt /\
  Z.max 0 (2 ^ 45 - 0 + 1) = 2 ^ 45 + 1 /\
  forall (h : Allocator) (fuel : nat),
    seq fuel 0 (2 ^ 45) = Some (Panic makeslice_cap_out_of_range) /\
    seq_mem h fuel 0 (2 ^ 45) = Some (Alive (Panic makeslice_cap_out_of_range)).
Proof.
  split; [int_consts; lia|]. split; [int_consts; lia|].
  split; [int_consts; lia|]. split; [reflexivity|].
  intros h fuel.
  assert (H : seq fuel 0 (2 ^ 45) = Some (Panic makeslice_cap_out_of_range))
    by (apply seq_panics_big; int_consts; lia).
  split; [exact H | now apply seq_mem_Panic].
Qed.

(** C10, amended: for ints start, end for which the [make] of [seq]
    returns (the capacity passes the size test and the allocator serves the
    block), with end < MaxInt and n = max(0, end - start + 1): the loop ends
    after exactly n executions of its body, that is, [seq] returns the slice
    start, ..., end of length n once the fuel pays for n + 1 tests of
    [i <= end] (n that hold and the one that fails), and is still running
    with fuel for n tests or fewer.  With end = MaxInt the condition
    [i <= end] holds for every int i, and [seq] never returns a slice. *)
Theorem seq_loop_terminates (h : Allocator) (start end_ : Z) (s0 : slice) :
  GoInt.is_int start -> GoInt.is_int end_ ->
  makeslice_mem h 0 (GoInt.add (GoInt.sub end_ start) 1) = Alive (Return s0) ->
  let n := Z.to_nat (Z.max 0 (end_ - start + 1)) in
  (end_ < GoInt.MaxInt ->
     (forall fuel : nat, (n < fuel)%nat ->
        seq_mem h fuel start end_ = Some (Alive (Return (interval start end_)))) /\
     (forall fuel : nat, (fuel <= n)%nat -> seq_mem h fuel start end_ = None) /\
     List.length (interval start end_) = n) /\
  (end_ = GoInt.MaxInt ->
     (forall i : Z, GoInt.is_int i -> (i <=? end_) = true) /\
     forall (fuel : nat) (s : list Z),
       seq_mem h fuel start end_ <> Some (Alive (Return s))).
Proof.
  intros Hs He Hm n.
  pose proof (wrap_is_int (GoInt.sub end_ start + 1)) as Hi.
  fold (GoInt.add (GoInt.sub end_ start) 1) in Hi.
  destruct (makeslice_mem_Return _ _ _ Hi Hm) as (Hc & Hg & _).
  split.
  - intros Hmax.
    assert (Hagree : forall fuel,
              seq_mem h fuel start end_ = option_map Alive (seq fuel start end_))
      by (intros fuel; now apply seq_mem_agrees).
    assert (Hn : n = Z.to_nat (end_ - start + 1)) by (unfold n; lia).
    destruct (seq_trichotomy start end_ Hs He)
      as [(_ & Hr & Hshort)|[(Hband & Hp)|(Hmx & _)]].
    + split; [|split].
      * intros fuel Hf. rewrite Hagree, Hr by lia. reflexivity.
      * intros fuel Hf. rewrite Hagree, Hshort by lia. reflexivity.
      * unfold interval. rewrite zrange_length. lia.
    + exfalso. specialize (Hp 0%nat). unfold seq in Hp.
      rewrite (makeslice_0_spec _ Hi) in Hp.
      replace (0 <=? _) with true in Hp by (symmetry; apply Z.leb_le; lia).
      replace (_ <=? maxCap) with true in Hp by (symmetry; apply Z.leb_le; lia).
      discriminate.
    + lia.
  - intros ->. split.
    + intros i Hi'. apply Z.leb_le. unfold GoInt.is_int in Hi'. lia.
    + intros fuel s. now apply seq_mem_MaxInt.
Qed.

Lemma seq_loop_terminates_witness :
  seq_mem one_page 6 1 5 = Some (Alive (Return (interval 1 5))) /\
  seq_mem one_page 5 1 5 = None /\
  List.length (interval 1 5) = 5%nat.
Proof.
  assert (H1 : GoInt.is_int 1)
    by (unfold GoInt.is_int, GoInt.MinInt, GoInt.MaxInt; lia).
  assert (H5 : GoInt.is_int 5)
    by (unfold GoInt.is_int, GoInt.MinInt, GoInt.MaxInt; lia).
  assert (Hm : 5 < GoInt.MaxInt) by (unfold GoInt.MaxInt; lia).
  destruct (proj1 (seq_loop_terminates one_page 1 5 ([], 5) H1 H5 eq_refl) Hm)
    as (Hr & Hn & Hl).
  split; [|split].
  - apply (Hr 6%nat). simpl. lia.
  - apply (Hn 5%nat). simpl. lia.
  - exact Hl.
Defined.

(** ** Further properties, with the allocator *)

(** With no fuel, a panic of [seq_mem] is a panic of the size test. *)
Lemma seq_mem_0_Panic (h : Allocator) (start end_ : Z) (e : runtimeError) :
  seq_mem h 0 start end_ = Some (Alive (Panic e)) ->
  seq 0 start end_ = Some (Panic e).
Proof.
  unfold seq_mem, makeslice_mem, seq.
  destruct (makeslice 0 _) as [s|e']; [|congruence].
  destruct (mallocgc h _); discriminate.
Qed.

(** X2: for every pair of ints and every allocator, with
    d = end - start + 1 as a mathematical integer and cap the capacity the
    code computes: [seq] returns a slice (with enough fuel) exactly when the
    allocator serves the block of [make] and either 0 <= d <= 2^45 with
    end < MaxInt, or d <= 2^45 - 2^64 (a reversed range whose capacity wraps
    around to one that passes the size test); it panics in [make], for every
    fuel, exactly when 2^45 - 2^64 < d < 0 or 2^45 < d < 2^64; and it dies in
    [make], for every fuel, exactly when the capacity passes the size test and
    the allocator does not serve the block. *)
Theorem seq_outcome_classification (h : Allocator) (start end_ : Z) :
  GoInt.is_int start -> GoInt.is_int end_ ->
  let d := end_ - start + 1 in
  let cap := GoInt.add (GoInt.sub end_ start) 1 in
  ((exists fuel s, seq_mem h fuel start end_ = Some (Alive (Return s))) <->
   ((0 <= d <= maxCap /\ end_ < GoInt.MaxInt) \/ d <= maxCap - 2 ^ 64) /\
   mallocgc h (int_size * cap) = true) /\
  ((forall fuel,
      seq_mem h fuel start end_ = Some (Alive (Panic makeslice_cap_out_of_range))) <->
   maxCap - 2 ^ 64 < d < 0 \/ maxCap < d < 2 ^ 64) /\
  ((forall fuel, seq_mem h fuel start end_ = Some Died) <->
   0 <= cap <= maxCap /\ mallocgc h (int_size * cap) = false).
Proof.
  intros Hs He d cap.
  pose proof (wrap_is_int (GoInt.sub end_ start + 1)) as Hi.
  fold (GoInt.add (GoInt.sub end_ start) 1) in Hi. fold cap in Hi.
  pose proof (seq_trichotomy start end_ Hs He) as T. fold d in T.
  split; [|split].
  - split.
    + intros (fuel & s & H).
      destruct (seq_mem_Return _ _ _ _ _ Hs He H) as (_ & _ & Hg & Hseq).
      split; [|exact Hg].
      destruct T as [(Hc & _)|[(_ & Hp)|(_ & _ & Hn)]]; [exact Hc| |].
      * rewrite Hp in Hseq. discriminate.
      * rewrite Hn in Hseq. discriminate.
    + intros [Hc Hg].
      assert (Hmax : end_ < GoInt.MaxInt)
        by (destruct Hc as [[_ Hm]|Hw]; [exact Hm | unfold d in Hw; int_consts; lia]).
      exists (S (Z.to_nat d)), (interval start end_).
      rewrite seq_mem_agrees by auto.
      destruct T as [(_ & Hr & _)|[(Hb & _)|(Hm & _)]];
        [| exfalso; int_consts; lia | lia].
      rewrite Hr by lia. reflexivity.
  - split.
    + intros H. specialize (H 0%nat). apply seq_mem_0_Panic in H.
      destruct T as [(_ & _ & Hn)|[(Hb & _)|(_ & _ & Hn)]]; [|exact Hb|].
      * rewrite Hn in H by lia. discriminate.
      * rewrite Hn in H. discriminate.
    + intros Hb fuel. apply seq_mem_Panic.
      destruct T as [(Hc & _)|[(_ & Hp)|(Hm & Hc & _)]];
        [exfalso; int_consts; lia | apply Hp |].
      exfalso. unfold d in *. int_consts. lia.
  - split.
    + intros H. specialize (H 0%nat). unfold seq_mem in H.
      fold cap in H. rewrite (makeslice_mem_0 _ _ Hi) in H.
      destruct (Z.leb_spec 0 cap); destruct (Z.leb_spec cap maxCap);
        cbn [andb] in H; try discriminate.
      destruct (mallocgc h (int_size * cap)); [discriminate|]. split; [lia|reflexivity].
    + intros [Hc Hg] fuel. now apply seq_mem_Died.
Qed.

Lemma seq_outcome_classification_witness :
  (exists fuel s, seq_mem one_page fuel 1 5 = Some (Alive (Return s))) /\
  (forall fuel,
     seq_mem one_page fuel 5 1 = Some (Alive (Panic makeslice_cap_out_of_range))) /\
  (forall fuel, seq_mem one_page fuel 1 513 = Some Died).
Proof.
  assert (H1 : GoInt.is_int 1)
    by (unfold GoInt.is_int, GoInt.MinInt, GoInt.MaxInt; lia).
  assert (H5 : GoInt.is_int 5)
    by (unfold GoInt.is_int, GoInt.MinInt, GoInt.MaxInt; lia).
  assert (H513 : GoInt.is_int 513)
    by (unfold GoInt.is_int, GoInt.MinInt, GoInt.MaxInt; lia).
  split; [|split].
  - apply (proj1 (seq_outcome_classification one_page 1 5 H1 H5)).
    split; [left; unfold maxCap, GoInt.MaxInt; lia | reflexivity].
  - apply (proj1 (proj2 (seq_outcome_classification one_page 5 1 H5 H1))).
    left. unfold maxCap. lia.
  - apply (proj2 (proj2 (seq_outcome_classification one_page 1 513 H1 H513))).
    split; [|reflexivity]. vm_compute. split; discriminate.
Defined.

(** X4: ranges compose: for ints a <= b + 1 and b <= c with
    c - a + 1 <= 2^45 and c < MaxInt, on a run in which the allocator serves
    the three blocks, [seq a b] followed by [seq (b+1) c] is [seq a c]. *)
Theorem seq_adjacent_ranges (h : Allocator) (fuel : nat) (a b c : Z) :
  GoInt.is_int a -> GoInt.is_int b -> GoInt.is_int c ->
  a <= b + 1 -> b <= c -> c - a + 1 <= maxCap -> c < GoInt.MaxInt ->
  mallocgc h (int_size * (b - a + 1)) = true ->
  mallocgc h (int_size * (c - (b + 1) + 1)) = true ->
  mallocgc h (int_size * (c - a + 1)) = true ->
  (Z.to_nat (c - a + 1) < fuel)%nat ->
  exists s1 s2 : list Z,
    seq_mem h fuel a b = Some (Alive (Return s1)) /\
    seq_mem h fuel (b + 1) c = Some (Alive (Return s2)) /\
    seq_mem h fuel a c = Some (Alive (Return (s1 ++ s2)%list)).
Proof.
  intros Ha Hb Hc Hab Hbc Hcap Hmax G1 G2 G3 Hfuel.
  exists (interval a b), (interval (b + 1) c).
  split; [|split].
  - apply seq_mem_returns; auto; int_consts; lia.
  - apply seq_mem_returns; auto; int_consts; lia.
  - rewrite <- interval_app by assumption.
    apply seq_mem_returns; auto; int_consts; lia.
Qed.

Lemma seq_adjacent_ranges_witness :
  exists s1 s2 : list Z,
    seq_mem one_page 6 1 2 = Some (Alive (Return s1)) /\
    seq_mem one_page 6 (2 + 1) 5 = Some (Alive (Return s2)) /\
    seq_mem one_page 6 1 5 = Some (Alive (Return (s1 ++ s2)%list)).
Proof.
  apply (seq_adjacent_ranges one_page 6 1 2 5).
  - unfold GoInt.is_int, GoInt.MinInt, GoInt.MaxInt. lia.
  - unfold GoInt.is_int, GoInt.MinInt, GoInt.MaxInt. lia.
  - unfold GoInt.is_int, GoInt.MinInt, GoInt.MaxInt. lia.
  - lia.
  - lia.
  - unfold maxCap. lia.
  - unfold GoInt.MaxInt. lia.
  - reflexivity.
  - reflexivity.
  - reflexivity.
  - simpl. lia.
Defined.

(** X5: the capacity handed to [make] is exact: for ints start <= end + 1
    with end - start + 1 <= 2^45 and end < MaxInt, the block of [make] is the
    only thing [seq] asks of the allocator ([append] never reaches
    [growslice]): two allocators that answer that one request alike give the
    same run, whatever they answer to any other request; and a slice that is
    returned fills the capacity to the last element. *)
Theorem seq_capacity_exact (h1 h2 : Allocator) (fuel : nat) (start end_ : Z) :
  GoInt.is_int start -> GoInt.is_int end_ -> start <= end_ + 1 ->
  end_ - start + 1 <= maxCap -> end_ < GoInt.MaxInt ->
  mallocgc h1 (int_size * (end_ - start + 1)) =
    mallocgc h2 (int_size * (end_ - start + 1)) ->
  seq_mem h1 fuel start end_ = seq_mem h2 fuel start end_ /\
  (forall s : list Z,
     seq_mem h1 fuel start end_ = Some (Alive (Return s)) ->
     Z.of_nat (List.length s) = GoInt.add (GoInt.sub end_ start) 1).
Proof.
  intros Hs He Hle Hcap Hmax Hg.
  pose proof (seq_cap_in_bounds _ _ Hle Hcap) as Hc.
  split.
  - destruct (mallocgc h1 (int_size * (end_ - start + 1))) eqn:G1.
    + rewrite !seq_mem_agrees by (auto; now rewrite Hc). reflexivity.
    + rewrite !seq_mem_Died by (rewrite Hc; auto; lia). reflexivity.
  - intros s H.
    destruct (seq_mem_Return _ _ _ _ _ Hs He H) as (_ & _ & _ & Hseq).
    apply seq_Return_interval in Hseq; auto. subst s.
    rewrite Hc, interval_length. lia.
Qed.

Lemma seq_capacity_exact_witness :
  seq_mem one_page 6 1 5 =
    seq_mem {| grants := fun size => size =? 40;
               nextslicecap := fun _ _ => 0;
               buffer_holds := fun _ => false |} 6 1 5 /\
  (forall s : list Z,
     seq_mem one_page 6 1 5 = Some (Alive (Return s)) ->
     Z.of_nat (List.length s) = GoInt.add (GoInt.sub 5 1) 1).
Proof.
  apply (seq_capacity_exact one_page _ 6 1 5).
  - unfold GoInt.is_int, GoInt.MinInt, GoInt.MaxInt. lia.
  - unfold GoInt.is_int, GoInt.MinInt, GoInt.MaxInt. lia.
  - lia.
  - unfold maxCap. lia.
  - unfold GoInt.MaxInt. lia.
  - reflexivity.
Defined.

(** X6: rendering composes over adjacent ranges, for any prefix and
    separator: for ints a <= b + 1 and b <= c with c - a + 1 <= 2^45 and
    c < MaxInt, on a run in which the allocator serves the three blocks and
    gives the buffer the memory for the whole text, the text for a..c is the
    text for a..b followed by the text for b+1..c rendered with an empty
    prefix, and the text for a..b is the prefix followed by each numeral and
    the separator. *)
Theorem render_adjacent_ranges (h : Allocator) (fuel : nat) (prefix sep : string)
    (a b c : Z) :
  GoInt.is_int a -> GoInt.is_int b -> GoInt.is_int c ->
  a <= b + 1 -> b <= c -> c - a + 1 <= maxCap -> c < GoInt.MaxInt ->
  mallocgc h (int_size * (b - a + 1)) = true ->
  mallocgc h (int_size * (c - (b + 1) + 1)) = true ->
  mallocgc h (int_size * (c - a + 1)) = true ->
  buffer_serves h
    (Z.of_nat (String.length
                 (prefix ++ join_after sep (map itoa (interval a c))))) ->
  (Z.to_nat (c - a + 1) < fuel)%nat ->
  exists t1 t2 : string,
    render_mem h fuel prefix a b sep = Some (Alive (inl t1)) /\
    render_mem h fuel "" (b + 1) c sep = Some (Alive (inl t2)) /\
    render_mem h fuel prefix a c sep = Some (Alive (inl (t1 ++ t2)%string)) /\
    t1 = (prefix ++ join_after sep (map itoa (interval a b)))%string.
Proof.
  intros Ha Hb Hc Hab Hbc Hcap Hmax G1 G2 G3 Hbuf Hfuel.
  assert (Htext : (prefix ++ join_after sep (map itoa (interval a c)))%string =
                  ((prefix ++ join_after sep (map itoa (interval a b)))
                   ++ join_after sep (map itoa (interval (b + 1) c)))%string)
    by (rewrite (interval_app a b c), map_app, join_after_app, append_assoc
          by assumption; reflexivity).
  exists (prefix ++ join_after sep (map itoa (interval a b)))%string,
         (join_after sep (map itoa (interval (b + 1) c))).
  split; [|split; [|split]].
  - apply render_mem_returns; auto; try (int_consts; lia).
    eapply buffer_serves_le; [exact Hbuf|].
    rewrite Htext, (length_append (prefix ++ _)). lia.
  - apply (render_mem_returns h fuel "" sep); auto; try (int_consts; lia).
    eapply buffer_serves_le; [exact Hbuf|].
    rewrite Htext, (length_append (prefix ++ _)). simpl. lia.
  - rewrite <- Htext. apply render_mem_returns; auto; int_consts; lia.
  - reflexivity.
Qed.

Lemma render_adjacent_ranges_witness :
  exists t1 t2 : string,
    render_mem one_page 6 "Numbers: " 1 2 " " = Some (Alive (inl t1)) /\
    render_mem one_page 6 "" (2 + 1) 5 " " = Some (Alive (inl t2)) /\
    render_mem one_page 6 "Numbers: " 1 5 " " = Some (Alive (inl (t1 ++ t2)%string)) /\
    t1 = ("Numbers: " ++ join_after " " (map itoa (interval 1 2)))%string.
Proof.
  apply (render_adjacent_ranges one_page 6 "Numbers: " " " 1 2 5).
  - unfold GoInt.is_int, GoInt.MinInt, GoInt.MaxInt. lia.
  - unfold GoInt.is_int, GoInt.MinInt, GoInt.MaxInt. lia.
  - unfold GoInt.is_int, GoInt.MinInt, GoInt.MaxInt. lia.
  - lia.
  - lia.
  - unfold maxCap. lia.
  - unfold GoInt.MaxInt. lia.
  - reflexivity.
  - reflexivity.
  - reflexivity.
  - intros n Hn. apply Z.leb_le, Z.le_trans with (1 := proj2 Hn).
    vm_compute. discriminate.
  - simpl. lia.
Defined.

(** X8: reversed ranges, for any prefix and separator, on a run in which
    the buffer gets the memory for the prefix.  For ints with end < start:
    when start = end + 1 (capacity 0, nothing asked of the allocator), or when
    end - start + 1 <= 2^45 - 2^64 (the capacity wraps around to one that
    passes the size test) and the allocator serves that block, [render]
    returns exactly the prefix; when the capacity wraps around like that and
    the allocator does not serve the block, the process dies; and when
    2^45 - 2^64 < end - start + 1 < 0, [render] returns the error of calling
    seq for every fuel and every allocator, and [Execute] leaves the prefix in
    the buffer. *)
Theorem render_reversed_range (h : Allocator) (prefix sep : string)
    (start end_ : Z) :
  GoInt.is_int start -> GoInt.is_int end_ -> end_ < start ->
  buffer_serves h (Z.of_nat (String.length prefix)) ->
  (start = end_ + 1 \/
   (end_ - start + 1 <= maxCap - 2 ^ 64 /\
    grants h (int_size * (end_ - start + 1 + 2 ^ 64)) = true) ->
   forall fuel : nat,
     render_mem h (S fuel) prefix start end_ sep = Some (Alive (inl prefix))) /\
  (end_ - start + 1 <= maxCap - 2 ^ 64 /\
   grants h (int_size * (end_ - start + 1 + 2 ^ 64)) = false ->
   forall fuel : nat, render_mem h fuel prefix start end_ sep = Some Died) /\
  (maxCap - 2 ^ 64 < end_ - start + 1 < 0 ->
   forall fuel : nat,
     render_mem h fuel prefix start end_ sep =
       Some (Alive (inr (error_calling "seq" makeslice_cap_out_of_range))) /\
     Execute_mem h fuel prefix start end_ sep "" =
       Some (Alive (prefix, Some (error_calling "seq" makeslice_cap_out_of_range)))).
Proof.
  intros Hs He Hlt Hbuf.
  assert (Hmax : end_ < GoInt.MaxInt) by (unfold GoInt.is_int in Hs; lia).
  assert (HW : Write h "" prefix = Alive prefix)
    by (apply (Write_serves h _ "" prefix Hbuf); simpl; lia).
  split; [|split].
  - intros Hc fuel.
    assert (Hg : mallocgc h (int_size * GoInt.add (GoInt.sub end_ start) 1) = true).
    { destruct Hc as [->|[Hw Hg]].
      - rewrite seq_cap_in_bounds by (int_consts; lia).
        now replace (end_ - (end_ + 1) + 1) with 0 by lia.
      - rewrite seq_cap, wrap_below by (int_consts; lia).
        now apply mallocgc_grants. }
    assert (Hseq : seq (S fuel) start end_ = Some (Return [])).
    { destruct Hc as [->|[Hw _]].
      - assert (Hi : interval (end_ + 1) end_ = [])
          by (unfold interval; replace (end_ - (end_ + 1) + 1) with 0 by lia;
              reflexivity).
        rewrite <- Hi. apply seq_returns; auto; int_consts; lia.
      - now apply seq_wrapped_reversed. }
    apply render_mem_agrees; [now apply seq_mem_agrees | | exact Hbuf].
    rewrite (render_Return _ _ _ _ _ _ Hseq). simpl. now rewrite append_nil_r.
  - intros [Hw Hg] fuel.
    assert (Hd : seq_mem h fuel start end_ = Some Died).
    { apply seq_mem_Died; rewrite seq_cap, wrap_below by (int_consts; lia).
      - int_consts. lia.
      - unfold mallocgc. rewrite Hg.
        replace (_ =? 0) with false
          by (symmetry; apply Z.eqb_neq; int_consts; lia).
        reflexivity. }
    unfold render_mem, Execute_mem. now rewrite HW, Hd.
  - intros Hd fuel.
    assert (Hseq : seq_mem h fuel start end_ =
                   Some (Alive (Panic makeslice_cap_out_of_range))).
    { apply seq_mem_Panic.
      destruct (Z_lt_ge_dec (end_ - start + 1) GoInt.MinInt).
      - apply seq_panics_wrapped_big; auto. lia.
      - apply seq_panics_neg. lia. }
    unfold render_mem, Execute_mem. rewrite HW, Hseq. split; reflexivity.
Qed.

Lemma render_reversed_range_witness :
  (forall fuel : nat,
     render_mem one_page (S fuel) "Numbers: " 2 1 " " =
       Some (Alive (inl "Numbers: "%string))) /\
  (forall fuel : nat,
     render_mem one_page fuel "Numbers: " GoInt.MaxInt (GoInt.MinInt + 600) " " =
       Some Died) /\
  (forall fuel : nat,
     render_mem one_page fuel "Numbers: " 7 3 " " =
       Some (Alive (inr (error_calling "seq" makeslice_cap_out_of_range))) /\
     Execute_mem one_page fuel "Numbers: " 7 3 " " "" =
       Some (Alive ("Numbers: "%string,
                    Some (error_calling "seq" makeslice_cap_out_of_range)))).
Proof.
  assert (H1 : GoInt.is_int 1)
    by (unfold GoInt.is_int, GoInt.MinInt, GoInt.MaxInt; lia).
  assert (H2 : GoInt.is_int 2)
    by (unfold GoInt.is_int, GoInt.MinInt, GoInt.MaxInt; lia).
  assert (H3 : GoInt.is_int 3)
    by (unfold GoInt.is_int, GoInt.MinInt, GoInt.MaxInt; lia).
  assert (H7 : GoInt.is_int 7)
    by (unfold GoInt.is_int, GoInt.MinInt, GoInt.MaxInt; lia).
  assert (Hm : GoInt.is_int GoInt.MaxInt)
    by (unfold GoInt.is_int, GoInt.MinInt, GoInt.MaxInt; lia).
  assert (Hn : GoInt.is_int (GoInt.MinInt + 600))
    by (unfold GoInt.is_int, GoInt.MinInt, GoInt.MaxInt; lia).
  assert (Hb : buffer_serves one_page (Z.of_nat (String.length "Numbers: ")))
    by (intros n Hle; apply Z.leb_le, Z.le_trans with (1 := proj2 Hle);
        vm_compute; discriminate).
  split; [|split].
  - apply (proj1 (render_reversed_range one_page "Numbers: " " " 2 1
                    H2 H1 ltac:(lia) Hb)).
    left. reflexivity.
  - apply (proj1 (proj2 (render_reversed_range one_page "Numbers: " " "
                           GoInt.MaxInt (GoInt.MinInt + 600) Hm Hn
                           ltac:(unfold GoInt.MinInt, GoInt.MaxInt; lia) Hb))).
    split; [vm_compute; discriminate | reflexivity].
  - apply (proj2 (proj2 (render_reversed_range one_page "Numbers: " " " 7 3
                           H7 H3 ltac:(lia) Hb))).
    unfold maxCap. lia.
Defined.
